(** * dso-log-scrubber: the line-scrubbing engine of [main.py]

    A shallow embedding of [LogScrubber._scrub_line] and
    [LogScrubber.scrub_log], together with what they call: Python's
    [re] module (through [re.sub]), [faker.Faker], and the host of the
    program, that is text files with their codecs, [chardet] and the
    operating system.

    Python [str] values are modelled as lists of characters; a character
    is a code point below 256.  Python [bytes] values are lists of
    bytes. *)

From Stdlib Require Import List Ascii String Bool Arith NArith Lia.
Import ListNotations.
Local Open Scope list_scope.
Local Open Scope char_scope.

(** ** Strings *)

Definition str : Type := list ascii.

(** [py "abc"] is the Python string literal ['abc']. *)
Definition py (s : string) : str := list_ascii_of_string s.

Fixpoint str_eqb (a b : str) : bool :=
  match a, b with
  | [], [] => true
  | x :: a', y :: b' => Ascii.eqb x y && str_eqb a' b'
  | _, _ => false
  end.

Definition code (c : ascii) : N := N_of_ascii c.

(** [lo <= c <= hi] on code points. *)
Definition in_range (lo hi c : ascii) : bool :=
  (code lo <=? code c)%N && (code c <=? code hi)%N.

Definition is_digit (c : ascii) : bool := in_range "0" "9" c.
Definition is_octdigit (c : ascii) : bool := in_range "0" "7" c.
Definition is_ascii_letter (c : ascii) : bool :=
  in_range "a" "z" c || in_range "A" "Z" c.

(** [chr(n)]. *)
Definition chr (n : N) : ascii := ascii_of_N n.

Definition digit_val (c : ascii) : N := (code c - code "0")%N.

(** [int(digits)] for a string of decimal digits, [int(digits, 8)] for
    octal digits. *)
Definition int_of (base : N) (ds : str) : N :=
  fold_left (fun acc d => (acc * base + digit_val d)%N) ds 0%N.

(** ** Exceptions

    [_scrub_line] distinguishes exactly one exception class, [re.error];
    every other class propagates to its caller, [scrub_log], which
    distinguishes [FileNotFoundError] from the rest. *)
Inductive exn : Type :=
| re_error          (* re.error *)
| IndexError        (* raised by the replacement-template parser *)
| OverflowError     (* raised by the pattern parser *)
| LookupError       (* raised by open for an encoding it does not know *)
| FileNotFoundError (* raised by open and by os.replace *)
| PermissionError   (* raised by open and by os.replace *)
| IsADirectoryError (* raised by open *)
| Unmodelled.       (* input outside the fragment of the library that the
                       concrete engine below interprets: the model makes
                       no statement about Python's behaviour there *)

Inductive result (A : Type) : Type :=
| Ok (a : A)
| Raise (e : exn).
Arguments Ok {A} a.
Arguments Raise {A} e.

(** ** The [re] module *)

Module re.

(** A match object, reduced to what a replacement template can ask of
    it: the text of the whole match and the text of each capturing
    group ([None] for a group that did not take part in the match). *)
Record Match : Type := {
  group0 : str;
  groups : list (option str)
}.

(** [m.group(n)], with Python's rule (3.5 and later) that an unmatched
    group expands to the empty string. *)
Definition group (m : Match) (n : nat) : str :=
  match n with
  | O => group0 m
  | S k => match nth_error (groups m) k with
           | Some (Some t) => t
           | _ => []
           end
  end.

(** The outcome of scanning a string for the leftmost non-overlapping
    occurrences of a pattern: each occurrence paired with the unmatched
    text in front of it, and the unmatched text after the last one. *)
Definition Scan : Type := (list (str * Match) * str)%type.

(** The string a scan was taken from. *)
Definition unscan (sc : Scan) : str :=
  flat_map (fun gm => fst gm ++ group0 (snd gm)) (fst sc) ++ snd sc.

(** The matching engine behind [re.sub]: pattern compilation, which
    can raise, the number of groups of a pattern and the numbers of
    its named groups, and the scanning loop of [Pattern.sub]. *)
Class Engine : Type := {
  Pattern : Type;
  compile : str -> result Pattern;
  ngroups : Pattern -> nat;
  groupindex : Pattern -> str -> option nat;
  scan : Pattern -> str -> Scan;
  scan_covers : forall p s, unscan (scan p s) = s
}.

(** *** Replacement templates ([parse_template], [expand_template]) *)

Inductive titem : Type :=
| TLit (c : ascii)
| TGroup (n : nat).

Definition template : Type := list titem.

Definition tcons (i : titem) (r : result template) : result template :=
  match r with
  | Ok t => Ok (i :: t)
  | Raise e => Raise e
  end.

(** [addgroup]: a reference to a group the pattern does not have is
    "invalid group reference". *)
Definition addgroup (ngroups : nat) (index : N)
    (r : result template) : result template :=
  if (N.of_nat ngroups <? index)%N then Raise re_error
  else tcons (TGroup (N.to_nat index)) r.

Definition is_ident_start (c : ascii) : bool :=
  is_ascii_letter c || Ascii.eqb c "_".

(** ASCII identifiers, the names [str.isidentifier] accepts among
    ASCII strings. *)
Definition is_identifier (name : str) : bool :=
  match name with
  | [] => false
  | c :: cs => is_ident_start c
               && forallb (fun d => is_ident_start d || is_digit d) cs
  end.

(** Characters that occur neither in an identifier nor in anything
    [int] accepts: ASCII punctuation other than [+], [-] and [_]. *)
Definition is_name_junk (c : ascii) : bool :=
  in_range "!" "*" c || in_range "," "," c || in_range "." "/" c
  || in_range ":" "@" c || in_range "[" "^" c || in_range "`" "`" c
  || in_range "{" "~" c.

(** The group named in [\g<name>]: a decimal number, or the name of a
    named group of the pattern.  An unknown group name is reported
    with [IndexError]; the tokenizer's look-ahead reports a dangling
    backslash right after the [>] first.  Names that are neither
    decimal numbers, identifiers nor plainly malformed are read
    differently by different Python versions. *)
Definition named_group (ngroups : nat) (groupindex : str -> option nat)
    (name rest : str) (k : result template) : result template :=
  match name with
  | [] => Raise re_error                       (* missing group name *)
  | _ =>
    if forallb is_digit name then addgroup ngroups (int_of 10 name) k
    else if is_identifier name then
      match groupindex name with
      | Some index => addgroup ngroups (N.of_nat index) k
      | None =>
        match rest with
        | ["\"] => Raise re_error              (* bad escape (end of pattern) *)
        | _ => Raise IndexError                (* unknown group name *)
        end
      end
    else if existsb is_name_junk name
    then Raise re_error                        (* bad character in group name *)
    else Raise Unmodelled
  end.

(** [parse_template(source, pattern)] of CPython's [re] parser, for a
    pattern with [ngroups] groups, of which [groupindex] numbers the
    named ones. *)
Fixpoint parse_template (ngroups : nat) (groupindex : str -> option nat)
    (s : str) : result template :=
  match s with
  | [] => Ok []
  | "\" :: [] => Raise re_error                (* bad escape (end of pattern) *)
  | "\" :: c :: rest =>
    if Ascii.eqb c "g" then
      match rest with
      | "<" :: rest' =>
        (fix getuntil (name r : str) {struct r} : result template :=
           match r with
           | [] => Raise re_error              (* missing >, unterminated name *)
           | ">" :: r' =>
             named_group ngroups groupindex name r' (parse_template ngroups groupindex r')
           | d :: r' => getuntil (name ++ [d]) r'
           end) [] rest'
      | _ => Raise re_error                    (* missing < *)
      end
    else if Ascii.eqb c "0" then
      match rest with
      | d1 :: rest1 =>
        if is_octdigit d1 then
          match rest1 with
          | d2 :: rest2 =>
            if is_octdigit d2 then
              tcons (TLit (chr (N.land (int_of 8 [d1; d2]) 255)))
                    (parse_template ngroups groupindex rest2)
            else tcons (TLit (chr (int_of 8 [d1]))) (parse_template ngroups groupindex rest1)
          | [] => tcons (TLit (chr (int_of 8 [d1]))) (parse_template ngroups groupindex rest1)
          end
        else tcons (TLit (chr 0)) (parse_template ngroups groupindex rest)
      | [] => tcons (TLit (chr 0)) (parse_template ngroups groupindex rest)
      end
    else if is_digit c then
      match rest with
      | d1 :: rest' =>
        if is_digit d1 then
          match rest' with
          | d2 :: rest'' =>
            if is_octdigit c && is_octdigit d1 && is_octdigit d2 then
              if (255 <? int_of 8 [c; d1; d2])%N then Raise re_error
              else tcons (TLit (chr (int_of 8 [c; d1; d2])))
                         (parse_template ngroups groupindex rest'')
            else addgroup ngroups (int_of 10 [c; d1])
                          (parse_template ngroups groupindex rest')
          | [] => addgroup ngroups (int_of 10 [c; d1]) (Ok [])
          end
        else addgroup ngroups (int_of 10 [c]) (parse_template ngroups groupindex rest)
      | [] => addgroup ngroups (int_of 10 [c]) (Ok [])
      end
    else if Ascii.eqb c "a" then tcons (TLit (chr 7)) (parse_template ngroups groupindex rest)
    else if Ascii.eqb c "b" then tcons (TLit (chr 8)) (parse_template ngroups groupindex rest)
    else if Ascii.eqb c "f" then tcons (TLit (chr 12)) (parse_template ngroups groupindex rest)
    else if Ascii.eqb c "n" then tcons (TLit (chr 10)) (parse_template ngroups groupindex rest)
    else if Ascii.eqb c "r" then tcons (TLit (chr 13)) (parse_template ngroups groupindex rest)
    else if Ascii.eqb c "t" then tcons (TLit (chr 9)) (parse_template ngroups groupindex rest)
    else if Ascii.eqb c "v" then tcons (TLit (chr 11)) (parse_template ngroups groupindex rest)
    else if Ascii.eqb c "\" then tcons (TLit "\") (parse_template ngroups groupindex rest)
    else if is_ascii_letter c then Raise re_error   (* bad escape \c *)
    else tcons (TLit "\") (tcons (TLit c) (parse_template ngroups groupindex rest))
  | c :: rest => tcons (TLit c) (parse_template ngroups groupindex rest)
  end.

Definition expand (t : template) (m : Match) : str :=
  flat_map (fun i => match i with
                     | TLit c => [c]
                     | TGroup n => group m n
                     end) t.

Definition has_backslash (s : str) : bool := existsb (Ascii.eqb "\") s.

(** The filter [Pattern.sub] builds from a string [repl] before it
    looks for any match: the string itself when it holds no backslash,
    the parsed template otherwise. *)
Definition compile_repl (ngroups : nat) (groupindex : str -> option nat)
    (repl : str) : result template :=
  if has_backslash repl then parse_template ngroups groupindex repl
  else Ok (map TLit repl).

(** The loop of [Pattern.sub]: the text before each match, then the
    expansion of the template for it; the text after the last match. *)
Definition join (sc : Scan) (t : template) : str :=
  flat_map (fun gm => fst gm ++ expand t (snd gm)) (fst sc) ++ snd sc.

Section Sub.
Context {E : Engine}.

(** [re.sub(pattern, repl, string)]. *)
Definition sub (pattern repl string : str) : result str :=
  match compile pattern with
  | Raise e => Raise e
  | Ok p =>
    match compile_repl (ngroups p) (groupindex p) repl with
    | Raise e => Raise e
    | Ok t => Ok (join (scan p string) t)
    end
  end.
End Sub.

End re.

(** ** A concrete engine for a fragment of the pattern language

    Literals, escaped punctuation, [.], character sets, the categories
    [\d \s \w] and their complements, alternation, capturing and
    non-capturing groups, and greedy or lazy repetition of a single
    character, character set or category.  Anchors, back-references,
    look-around, flags, named groups and repetition of a group are
    outside the fragment: [parse] answers [Unmodelled] for them. *)

Module sre.

Inductive category : Type := Digit | Space | Word.

Inductive citem : Type :=
| CLit (c : ascii)
| CRange (lo hi : ascii)
| CCat (negate : bool) (cat : category).

(** Items that consume exactly one character. *)
Inductive atom : Type :=
| ALit (c : ascii)
| AAny
| AIn (negate : bool) (items : list citem).

Inductive regex : Type :=
| Empty
| Atom (a : atom)
| Cat (r1 r2 : regex)
| Branch (r1 r2 : regex)
| Repeat (lazy : bool) (lo : N) (hi : option N) (a : atom)
| Subpattern (n : nat) (r : regex).

Record Pattern : Type := { pat_code : regex; pat_groups : nat }.

(** *** Character categories (Unicode semantics, code points below 256) *)

Definition uni_isdigit (c : ascii) : bool := is_digit c.

Definition uni_isspace (c : ascii) : bool :=
  in_range (chr 9) (chr 13) c || in_range (chr 28) (chr 32) c
  || Ascii.eqb c (chr 133) || Ascii.eqb c (chr 160).

Definition uni_isword (c : ascii) : bool :=
  is_ascii_letter c || is_digit c || Ascii.eqb c "_"
  || Ascii.eqb c (chr 170) || in_range (chr 178) (chr 179) c
  || Ascii.eqb c (chr 181) || in_range (chr 185) (chr 186) c
  || in_range (chr 188) (chr 190) c || in_range (chr 192) (chr 214) c
  || in_range (chr 216) (chr 246) c || in_range (chr 248) (chr 255) c.

Definition in_category (cat : category) (c : ascii) : bool :=
  match cat with
  | Digit => uni_isdigit c
  | Space => uni_isspace c
  | Word => uni_isword c
  end.

Definition citem_ok (i : citem) (c : ascii) : bool :=
  match i with
  | CLit x => Ascii.eqb x c
  | CRange lo hi => in_range lo hi c
  | CCat negate cat => xorb negate (in_category cat c)
  end.

Definition atom_ok (a : atom) (c : ascii) : bool :=
  match a with
  | ALit x => Ascii.eqb x c
  | AAny => negb (Ascii.eqb c (chr 10))
  | AIn negate items => xorb negate (existsb (fun i => citem_ok i c) items)
  end.

(** *** The parser ([_parse_sub], [_parse], [_escape], [_class_escape]) *)

Definition MAXREPEAT : N := 4294967295.

Definition category_of (c : ascii) : option citem :=
  if Ascii.eqb c "d" then Some (CCat false Digit)
  else if Ascii.eqb c "D" then Some (CCat true Digit)
  else if Ascii.eqb c "s" then Some (CCat false Space)
  else if Ascii.eqb c "S" then Some (CCat true Space)
  else if Ascii.eqb c "w" then Some (CCat false Word)
  else if Ascii.eqb c "W" then Some (CCat true Word)
  else None.

(** The control characters named by [\a \f \n \r \t \v]; [\b] is one of
    them only inside a character set. *)
Definition control_escape (c : ascii) : option ascii :=
  if Ascii.eqb c "a" then Some (chr 7)
  else if Ascii.eqb c "f" then Some (chr 12)
  else if Ascii.eqb c "n" then Some (chr 10)
  else if Ascii.eqb c "r" then Some (chr 13)
  else if Ascii.eqb c "t" then Some (chr 9)
  else if Ascii.eqb c "v" then Some (chr 11)
  else None.

Definition is_numeric_escape (c : ascii) : bool :=
  Ascii.eqb c "x" || Ascii.eqb c "u" || Ascii.eqb c "U" || Ascii.eqb c "N".

(** [_class_escape]: the escape [\c] inside a character set. *)
Definition class_escape (c : ascii) : result citem :=
  match control_escape c with
  | Some x => Ok (CLit x)
  | None =>
    if Ascii.eqb c "b" then Ok (CLit (chr 8))
    else match category_of c with
         | Some i => Ok i
         | None =>
           if is_numeric_escape c || is_octdigit c then Raise Unmodelled
           else if is_digit c || is_ascii_letter c then Raise re_error
           else Ok (CLit c)
         end
  end.

(** [_escape]: the escape [\c] outside a character set. *)
Definition escape (c : ascii) : result atom :=
  match category_of c with
  | Some i => Ok (AIn false [i])
  | None =>
    if Ascii.eqb c "A" || Ascii.eqb c "b" || Ascii.eqb c "B" || Ascii.eqb c "Z"
    then Raise Unmodelled                              (* anchors *)
    else match control_escape c with
         | Some x => Ok (ALit x)
         | None =>
           if is_numeric_escape c || is_digit c then Raise Unmodelled
           else if is_ascii_letter c then Raise re_error   (* bad escape *)
           else Ok (ALit c)
         end
  end.

(** [source.next == c]. *)
Definition next_is (c : ascii) (src : str) : bool :=
  match src with
  | x :: _ => Ascii.eqb x c
  | [] => false
  end.

(** One member of a character set, up to but excluding a following
    range: the member and the rest of the source. *)
Definition class_member (src : str) : result (citem * str) :=
  match src with
  | [] => Raise re_error                       (* unterminated character set *)
  | c :: rest =>
    if Ascii.eqb c "\" then
      match rest with
      | [] => Raise re_error                   (* bad escape (end of pattern) *)
      | e :: rest' =>
        match class_escape e with
        | Ok i => Ok (i, rest')
        | Raise x => Raise x
        end
      end
    else Ok (CLit c, rest)
  end.

(** The range [lo-hi] of a character set. *)
Definition class_range_of (i j : citem) : result citem :=
  match i, j with
  | CLit lo, CLit hi =>
    if (code hi <? code lo)%N then Raise re_error   (* bad character range *)
    else Ok (CRange lo hi)
  | _, _ => Raise re_error                           (* bad character range *)
  end.

(** The members of a character set after its opening bracket and
    optional [^] ([class_items]), and what follows a member [i]
    ([class_range]); [first] tells that no member has been read yet,
    when a closing bracket stands for itself. *)
Fixpoint class_items (fuel : nat) (first : bool) (src : str)
    : result (list citem * str) :=
  match fuel with
  | O => Raise Unmodelled
  | S fuel' =>
    if next_is "]" src && negb first then Ok ([], tl src)
    else
      match class_member src with
      | Raise e => Raise e
      | Ok (i, rest) => class_range fuel' i rest
      end
  end
with class_range (fuel : nat) (i : citem) (src : str)
    : result (list citem * str) :=
  match fuel with
  | O => Raise Unmodelled
  | S fuel' =>
    let continue (i' : citem) (rest : str) :=
      match class_items fuel' false rest with
      | Ok (more, rest') => Ok (i' :: more, rest')
      | Raise e => Raise e
      end in
    if next_is "-" src then
      match tl src with
      | [] => Raise re_error                   (* unterminated character set *)
      | c :: rest =>
        if Ascii.eqb c "]" then Ok ([i; CLit "-"], rest)
        else
          match class_member (tl src) with
          | Raise e => Raise e
          | Ok (j, rest') =>
            match class_range_of i j with
            | Raise e => Raise e
            | Ok r => continue r rest'
            end
          end
      end
    else continue i src
  end.

Fixpoint take_digits (s : str) : str * str :=
  match s with
  | c :: s' =>
    if is_digit c then let (ds, rest) := take_digits s' in (c :: ds, rest)
    else ([], s)
  | [] => ([], [])
  end.

Inductive quantifier : Type :=
| NoQuant
| Quant (lo : N) (hi : option N) (rest : str)
| QuantErr (e : exn).

(** The bounds [{lo,hi}] once their digits and the closing brace are
    read.  Reading the brace makes the tokenizer look one token ahead,
    where it reports a dangling backslash before the bounds are
    checked. *)
Definition braces (lo hi rest : str) : quantifier :=
  if str_eqb rest ["\"] then QuantErr re_error   (* bad escape (end of pattern) *)
  else
    let min := match lo with [] => 0%N | _ => int_of 10 lo end in
    if (MAXREPEAT <=? min)%N then QuantErr OverflowError
    else match hi with
         | [] => Quant min None rest
         | _ =>
           let max := int_of 10 hi in
           if (MAXREPEAT <=? max)%N then QuantErr OverflowError
           else if (max <? min)%N then QuantErr re_error   (* min repeat greater than max repeat *)
           else Quant min (Some max) rest
         end.

(** The repetition operator at the head of the source, if any.  A
    brace that does not open well-formed bounds is a literal. *)
Definition parse_quant (src : str) : quantifier :=
  match src with
  | [] => NoQuant
  | c :: rest =>
    if Ascii.eqb c "*" then Quant 0 None rest
    else if Ascii.eqb c "+" then Quant 1 None rest
    else if Ascii.eqb c "?" then Quant 0 (Some 1%N) rest
    else if Ascii.eqb c "{" then
      if next_is "}" rest then NoQuant
      else
        let (lo, r1) := take_digits rest in
        if next_is "," r1 then
          let (hi, r2) := take_digits (tl r1) in
          if next_is "}" r2 then braces lo hi (tl r2) else NoQuant
        else if next_is "}" r1 then braces lo lo (tl r1)
        else NoQuant
    else NoQuant
  end.

(** An item of a sequence: a single-character atom, which a repetition
    operator may follow, or a group. *)
Inductive item : Type :=
| IAtom (a : atom)
| IGroup (r : regex).

Definition regex_of (i : item) : regex :=
  match i with
  | IAtom a => Atom a
  | IGroup r => r
  end.

(** The repetition operator after an item, with its [?] suffix for a
    lazy match.  The suffix [+] is possessive from Python 3.11 on and
    an error before. *)
Definition quantified (i : item) (src : str) : result (regex * str) :=
  match parse_quant src with
  | NoQuant => Ok (regex_of i, src)
  | QuantErr e => Raise e
  | Quant lo hi rest =>
    match i with
    | IGroup _ => Raise Unmodelled
    | IAtom a =>
      if next_is "?" rest then Ok (Repeat true lo hi a, tl rest)
      else if next_is "+" rest then Raise Unmodelled
      else Ok (Repeat false lo hi a, rest)
    end
  end.

Definition SPECIAL_CHARS : str := py ".\[{()*+?^$|".
Definition REPEAT_CHARS : str := py "*+?{".

Definition is_in (chars : str) (c : ascii) : bool :=
  existsb (Ascii.eqb c) chars.

Definition seq (r r' : regex) : regex :=
  match r' with
  | Empty => r
  | _ => Cat r r'
  end.

(** [_parse_sub] ([parse_branches]) and [_parse] ([parse_items]); the
    state is the rest of the source and the number of groups opened so
    far. *)
Fixpoint parse_branches (fuel : nat) (src : str) (ng : nat)
    : result (regex * str * nat) :=
  match fuel with
  | O => Raise Unmodelled
  | S fuel' =>
    match parse_items fuel' src ng with
    | Raise e => Raise e
    | Ok (r1, rest, ng1) =>
      if next_is "|" rest then
        match parse_branches fuel' (tl rest) ng1 with
        | Raise e => Raise e
        | Ok (r2, rest', ng2) => Ok (Branch r1 r2, rest', ng2)
        end
      else Ok (r1, rest, ng1)
    end
  end
with parse_items (fuel : nat) (src : str) (ng : nat)
    : result (regex * str * nat) :=
  match fuel with
  | O => Raise Unmodelled
  | S fuel' =>
    let after (i : item) (rest : str) (ng' : nat) :=
      match quantified i rest with
      | Raise e => Raise e
      | Ok (r, rest') =>
        match parse_items fuel' rest' ng' with
        | Raise e => Raise e
        | Ok (r', rest'', ng'') => Ok (seq r r', rest'', ng'')
        end
      end in
    let group (r : result (regex * str * nat)) (wrap : regex -> regex) :=
      match r with
      | Raise e => Raise e
      | Ok (r, rest', ng') =>
        if next_is ")" rest' then after (IGroup (wrap r)) (tl rest') ng'
        else Raise re_error                    (* missing ), unterminated subpattern *)
      end in
    match src with
    | [] => Ok (Empty, [], ng)
    | c :: rest =>
      if is_in (py "|)") c then Ok (Empty, src, ng)
      else if Ascii.eqb c "\" then
        match rest with
        | [] => Raise re_error                 (* bad escape (end of pattern) *)
        | e :: rest' =>
          match escape e with
          | Raise x => Raise x
          | Ok a => after (IAtom a) rest' ng
          end
        end
      else if negb (is_in SPECIAL_CHARS c) then after (IAtom (ALit c)) rest ng
      else if Ascii.eqb c "[" then
        let negate := next_is "^" rest in
        let rest1 := if negate then tl rest else rest in
        match class_items (2 * List.length rest1 + 1) true rest1 with
        | Raise e => Raise e
        | Ok (items, rest2) => after (IAtom (AIn negate items)) rest2 ng
        end
      else if is_in REPEAT_CHARS c then
        match parse_quant src with
        | NoQuant => after (IAtom (ALit c)) rest ng
        | QuantErr e => Raise e
        | Quant _ _ _ => Raise re_error        (* nothing to repeat, multiple repeat *)
        end
      else if Ascii.eqb c "." then after (IAtom AAny) rest ng
      else if Ascii.eqb c "(" then
        if next_is "?" rest then
          if next_is ":" (tl rest)
          then group (parse_branches fuel' (tl (tl rest)) ng) (fun r => r)
          else Raise Unmodelled
        else group (parse_branches fuel' rest (S ng)) (Subpattern (S ng))
      else Raise Unmodelled                    (* the anchors ^ and $ *)
    end
  end.

(** [parse]: the whole source must be consumed; what is left can only
    start with a closing parenthesis. *)
Definition parse (pattern : str) : result Pattern :=
  match parse_branches (2 * List.length pattern + 2) pattern 0 with
  | Raise e => Raise e
  | Ok (r, [], ng) => Ok {| pat_code := r; pat_groups := ng |}
  | Ok _ => Raise re_error                     (* unbalanced parenthesis *)
  end.

(** *** The matcher

    A backtracking matcher in continuation-passing style: [k] is what
    remains to be matched after the current item, applied to the rest
    of the subject and the groups captured so far. *)

Definition captures : Type := list (option str).

Fixpoint set_group (n : nat) (t : str) (g : captures) : captures :=
  match n, g with
  | _, [] => []
  | O, _ => g
  | S O, _ :: g' => Some t :: g'
  | S n', x :: g' => x :: set_group n' t g'
  end.

(** The text between a position [s] and a later position [s']. *)
Definition consumed (s s' : str) : str :=
  firstn (List.length s - List.length s') s.

Definition exhausted (hi : option N) : bool :=
  match hi with
  | Some n => (n =? 0)%N
  | None => false
  end.

Section Matcher.
Context {R : Type}.

(** Greedy repetition of one character: as many as allowed, then
    fewer while the continuation fails. *)
Fixpoint repeat_greedy (a : atom) (lo : N) (hi : option N) (s : str)
    (k : str -> option R) : option R :=
  let stop := if (lo =? 0)%N then k s else None in
  match s with
  | c :: s' =>
    if atom_ok a c && negb (exhausted hi) then
      match repeat_greedy a (N.pred lo) (option_map N.pred hi) s' k with
      | Some x => Some x
      | None => stop
      end
    else stop
  | [] => stop
  end.

(** Lazy repetition of one character: as few as allowed, then more
    while the continuation fails. *)
Fixpoint repeat_lazy (a : atom) (lo : N) (hi : option N) (s : str)
    (k : str -> option R) : option R :=
  let more :=
    match s with
    | c :: s' =>
      if atom_ok a c && negb (exhausted hi)
      then repeat_lazy a (N.pred lo) (option_map N.pred hi) s' k
      else None
    | [] => None
    end in
  if (lo =? 0)%N then
    match k s with
    | Some x => Some x
    | None => more
    end
  else more.

Fixpoint rmatch (r : regex) (s : str) (g : captures)
    (k : str -> captures -> option R) : option R :=
  match r with
  | Empty => k s g
  | Atom a =>
    match s with
    | c :: s' => if atom_ok a c then k s' g else None
    | [] => None
    end
  | Cat r1 r2 => rmatch r1 s g (fun s1 g1 => rmatch r2 s1 g1 k)
  | Branch r1 r2 =>
    match rmatch r1 s g k with
    | Some x => Some x
    | None => rmatch r2 s g k
    end
  | Repeat lazy lo hi a =>
    (if lazy then repeat_lazy else repeat_greedy) a lo hi s (fun s' => k s' g)
  | Subpattern n r1 =>
    rmatch r1 s g (fun s1 g1 => k s1 (set_group n (consumed s s1) g1))
  end.
End Matcher.

(** One attempt to match at the head of [s]: the length of the match
    and its groups.  With [must_advance] an empty match is refused and
    the matcher backtracks into a longer one. *)
Definition match_here (p : Pattern) (s : str) (must_advance : bool)
    : option (nat * captures) :=
  rmatch (pat_code p) s (repeat None (pat_groups p))
    (fun s' g =>
       if must_advance && Nat.eqb (List.length s') (List.length s) then None
       else Some (List.length s - List.length s', g)).

Definition emit (gap : str) (text : str) (g : captures) (sc : re.Scan)
    : re.Scan :=
  ((gap, {| re.group0 := text; re.groups := g |}) :: fst sc, snd sc).

(** The search loop of [Pattern.sub] (Python 3.7 and later).  [skip]
    counts the characters of the subject still inside the last match;
    [gap] is the unmatched text since that match.  A search starts at
    every position outside a match; after an empty match the search
    from the same position must advance. *)
Fixpoint scan_from (p : Pattern) (s : str) (skip : nat) (gap : str)
    : re.Scan :=
  match s with
  | [] =>
    match skip with
    | S _ => ([], gap)
    | O =>
      match match_here p [] false with
      | Some (_, g) => emit gap [] g ([], [])
      | None => ([], gap)
      end
    end
  | c :: s' =>
    match skip with
    | S skip' => scan_from p s' skip' gap
    | O =>
      match match_here p s false with
      | Some (S n, g) => emit gap (firstn (S n) s) g (scan_from p s' n [])
      | Some (O, g) =>
        emit gap [] g
          match match_here p s true with
          | Some (S n, g') => emit [] (firstn (S n) s) g' (scan_from p s' n [])
          | _ => scan_from p s' 0 [c]
          end
      | None => scan_from p s' 0 (gap ++ [c])
      end
    end
  end.

Definition scan (p : Pattern) (s : str) : re.Scan := scan_from p s 0 [].

End sre.

(** ** The [faker] library

    A [Faker] object draws on a randomness source; [G] is the state of
    that source, and each method returns the generated value together
    with the state it leaves behind. *)

Module faker.

Class Faker (G : Type) : Type := {
  name : G -> str * G;
  email : G -> str * G;
  address : G -> str * G;
  phone_number : G -> str * G;
  credit_card_number : G -> str * G
}.

End faker.

(** ** The host

    What [scrub_log] asks of its surroundings: text files with their
    codecs, [chardet], and the operating system. *)

Definition bytes : Type := list Byte.byte.

Definition LF : ascii := "010".
Definition CR : ascii := "013".

Module codecs.

(** A text codec as a file opened with [errors='ignore'] uses it:
    decoding leaves out the bytes that are not valid in the encoding,
    encoding leaves out the characters the encoding lacks, and neither
    raises.  [encode s] is what a file holds once the text [s] has been
    written to it, in one piece or in several. *)
Record CodecInfo : Type := {
  decode : bytes -> str;
  encode : str -> bytes
}.

End codecs.

(** The requests of the program that the operating system can
    refuse. *)
Inductive request : Type :=
| open_for_reading (path : str)   (* open(path, 'r'), open(path, 'rb') *)
| open_for_writing (path : str)   (* open(path, 'w') *)
| replace (src dst : str).        (* os.replace(src, dst) *)

Class Host : Type := {
  (** [codecs.lookup(encoding)]; [None] stands for [LookupError]. *)
  codecs_lookup : str -> option codecs.CodecInfo;
  (** The name of the encoding [open] takes for [encoding=None]. *)
  locale_getencoding : str;
  (** [chardet.detect(content)['encoding']], which is [None] when
      nothing is detected; [detect] returns for every byte string. *)
  chardet_detect : bytes -> option str;
  (** [os.linesep]. *)
  os_linesep : str;
  (** The exception with which the operating system refuses a request,
      for want of a permission or of a directory on the path, say;
      [None] when it grants the request. *)
  os_refuses : request -> option exn
}.

(** *** Text files: the [io] module *)

Module io.

(** Reading with [newline=None]: the line endings ['\r\n'] and ['\r']
    are read as ['\n']. *)
Fixpoint universal_newlines (s : str) : str :=
  match s with
  | [] => []
  | c :: rest =>
    if Ascii.eqb c CR then
      LF :: match rest with
            | c' :: rest' =>
              if Ascii.eqb c' LF then universal_newlines rest'
              else universal_newlines rest
            | [] => []
            end
    else c :: universal_newlines rest
  end.

(** [f.readlines()] on the text of a file: the lines, each with its
    ['\n'], but for a last line that lacks one. *)
Fixpoint readlines (s : str) : list str :=
  match s with
  | [] => []
  | c :: rest =>
    if Ascii.eqb c LF then [c] :: readlines rest
    else match readlines rest with
         | [] => [[c]]
         | line :: lines => (c :: line) :: lines
         end
  end.

(** Writing with [newline=None]: each ['\n'] is written as
    [os.linesep]. *)
Definition write_newlines (linesep s : str) : str :=
  flat_map (fun c => if Ascii.eqb c LF then linesep else [c]) s.

(** A text file open for writing: its path, its codec, and the text
    written to it so far. *)
Record TextIOWrapper : Type := {
  name : str;
  codec : codecs.CodecInfo;
  written : str
}.

End io.

(** ** [class LogScrubber] *)

(** The records the program sends to [logging], by the statement that
    emits them. *)
Inductive log_record : Type :=
| ERROR_detecting_encoding (e : exn)             (* line 46 *)
| ERROR_missing_arguments                        (* line 54 *)
| ERROR_input_not_found (path : str)             (* line 58 *)
| INFO_detected_encoding (encoding : option str) (* line 65 *)
| INFO_scrubbed_inplace (path : str)             (* line 78 *)
| ERROR_overwriting (e : exn)                    (* line 80 *)
| ERROR_file_not_found (path : str)              (* line 82 *)
| ERROR_occurred (e : exn)                       (* line 84 *)
| ERROR_invalid_regex (pattern : str).           (* line 115 *)

(** The attributes [__init__] stores, but for [self.fake], whose state
    lives in the world below. *)
Record LogScrubber : Type := {
  input_file : str;
  output_file : str;
  patterns : list str;
  replace_with : option str;
  inplace : bool;
  encoding : option str
}.

(** What the program reads and changes: the state of [self.fake], the
    log, and the files.  [files w path] is the content of what exists
    at [path], [None] when nothing exists there; a path at which
    something exists that cannot be opened, a directory say, is one
    that [os_refuses] refuses to open. *)
Record world (G : Type) : Type := {
  fake : G;
  log : list log_record;
  files : str -> option bytes
}.
Arguments fake {G} w.
Arguments log {G} w.
Arguments files {G} w.

Section Program.
Context {E : re.Engine} {G : Type} {F : faker.Faker G}.

(** A computation in the world that returns or raises. *)
Definition M (A : Type) : Type := world G -> result A * world G.

Definition ret {A} (a : A) : M A := fun w => (Ok a, w).

Definition bind {A B} (m : M A) (f : A -> M B) : M B :=
  fun w => match m w with
           | (Ok a, w') => f a w'
           | (Raise e, w') => (Raise e, w')
           end.

Definition lift {A} (r : result A) : M A := fun w => (r, w).

(** A call to a method of [self.fake]. *)
Definition generate (method : G -> str * G) : M str :=
  fun w => let (v, g) := method (fake w) in
           (Ok v, {| fake := g; log := log w; files := files w |}).

Definition logging (r : log_record) : M unit :=
  fun w => (Ok tt, {| fake := fake w; log := log w ++ [r]; files := files w |}).

Definition is_keyword (kw : string) (s : str) : bool := str_eqb s (py kw).

(** Lines 99-112: the body of the [try] statement, one call of
    [re.sub] whose replacement depends on [self.replace_with].  The
    arguments of a call are evaluated before the call. *)
Definition substitute (self : LogScrubber) (pattern sanitized_line : str)
    : M str :=
  match replace_with self with
  | None => lift (re.sub pattern [] sanitized_line)
  | Some r =>
    if is_keyword "fake_name" r then
      bind (generate faker.name)
           (fun v => lift (re.sub pattern v sanitized_line))
    else if is_keyword "fake_email" r then
      bind (generate faker.email)
           (fun v => lift (re.sub pattern v sanitized_line))
    else if is_keyword "fake_address" r then
      bind (generate faker.address)
           (fun v => lift (re.sub pattern v sanitized_line))
    else if is_keyword "fake_phone_number" r then
      bind (generate faker.phone_number)
           (fun v => lift (re.sub pattern v sanitized_line))
    else if is_keyword "fake_credit_card_number" r then
      bind (generate faker.credit_card_number)
           (fun v => lift (re.sub pattern v sanitized_line))
    else lift (re.sub pattern r sanitized_line)
  end.

(** Lines 97-117: the loop over [self.patterns].  [re.error] ends
    the call with the original line; any other exception leaves
    [_scrub_line]. *)
Fixpoint for_pattern (self : LogScrubber) (line : str)
    (rest : list str) (sanitized_line : str) : M str :=
  match rest with
  | [] => ret sanitized_line
  | pattern :: rest' =>
    fun w =>
      match substitute self pattern sanitized_line w with
      | (Ok s, w') => for_pattern self line rest' s w'
      | (Raise re_error, w') =>
        bind (logging (ERROR_invalid_regex pattern)) (fun _ => ret line) w'
      | (Raise e, w') => (Raise e, w')
      end
  end.

Definition _scrub_line (self : LogScrubber) (line : str) : M str :=
  for_pattern self line (patterns self) line.

(** *** Files *)

Context {H : Host}.

Definition falsy (s : str) : bool :=
  match s with [] => true | _ => false end.

Definition set_file (path : str) (content : option bytes)
    (w : world G) : world G :=
  {| fake := fake w; log := log w;
     files := fun p => if str_eqb p path then content else files w p |}.

(** [os.path.exists(path)]. *)
Definition os_path_exists (path : str) (w : world G) : bool :=
  match files w path with
  | Some _ => true
  | None => false
  end.

(** Opening the file for reading and reading it whole: [open(path,
    'rb')] with [f.read()], and what [open(path, 'r', ...)] with
    [readlines] does below the text layer. *)
Definition read_bytes (path : str) : M bytes :=
  fun w => match os_refuses (open_for_reading path) with
           | Some e => (Raise e, w)
           | None =>
             match files w path with
             | Some content => (Ok content, w)
             | None => (Raise FileNotFoundError, w)
             end
           end.

(** The codec of a file opened with [encoding=encoding]. *)
Definition text_codec (encoding : option str) : result codecs.CodecInfo :=
  match codecs_lookup (match encoding with
                       | Some e => e
                       | None => locale_getencoding
                       end) with
  | Some codec => Ok codec
  | None => Raise LookupError
  end.

(** Lines 67-68: [open(path, 'r', encoding=encoding, errors='ignore')]
    and [infile.readlines()].  [open] opens the file before it looks
    the encoding up. *)
Definition read_lines (path : str) (encoding : option str) : M (list str) :=
  bind (read_bytes path) (fun content =>
  bind (lift (text_codec encoding)) (fun codec =>
  ret (io.readlines (io.universal_newlines (codecs.decode codec content))))).

(** Line 70: [open(path, 'w', encoding=encoding, errors='ignore')].
    The file is created, or emptied, before the encoding is looked
    up. *)
Definition open_w (path : str) (encoding : option str)
    : M io.TextIOWrapper :=
  fun w => match os_refuses (open_for_writing path) with
           | Some e => (Raise e, w)
           | None =>
             match text_codec encoding with
             | Ok codec =>
               (Ok {| io.name := path; io.codec := codec; io.written := [] |},
                set_file path (Some []) w)
             | Raise e => (Raise e, set_file path (Some []) w)
             end
           end.

(** Line 73: [outfile.write(s)].  The text reaches the file when the
    buffer of [outfile] is flushed, at the latest when the [with]
    statement closes the file, which it does on every way out of the
    loop; no statement of the program reads the file in between, and
    here the text is written through at once.  Writing to a file that
    is open succeeds. *)
Definition write (outfile : io.TextIOWrapper) (s : str)
    : M io.TextIOWrapper :=
  fun w =>
    let text := io.written outfile ++ s in
    (Ok {| io.name := io.name outfile; io.codec := io.codec outfile;
           io.written := text |},
     set_file (io.name outfile)
              (Some (codecs.encode (io.codec outfile)
                                   (io.write_newlines os_linesep text)))
              w).

(** [os.replace(src, dst)]. *)
Definition os_replace (src dst : str) : M unit :=
  fun w => match os_refuses (replace src dst) with
           | Some e => (Raise e, w)
           | None =>
             match files w src with
             | None => (Raise FileNotFoundError, w)
             | Some content =>
               if str_eqb src dst then (Ok tt, w)
               else (Ok tt, set_file src None (set_file dst (Some content) w))
             end
           end.

(** *** [scrub_log] *)

(** Lines 37-47. *)
Definition _detect_encoding (self : LogScrubber) : M (option str) :=
  fun w => match read_bytes (input_file self) w with
           | (Ok content, w') => (Ok (chardet_detect content), w')
           | (Raise e, w') =>
             bind (logging (ERROR_detecting_encoding e))
                  (fun _ => ret (Some (py "utf-8"))) w'
           end.

(** Lines 63-65.  The result is the value of [self.encoding] from
    there on: the attribute as it was given, or what line 64 assigns
    to it. *)
Definition determine_encoding (self : LogScrubber) : M (option str) :=
  match encoding self with
  | Some (c :: e) => ret (Some (c :: e))
  | _ =>
    bind (_detect_encoding self) (fun detected =>
    bind (logging (INFO_detected_encoding detected)) (fun _ =>
    ret detected))
  end.

(** Lines 71-73, in the [with] statement of line 70. *)
Fixpoint for_line (self : LogScrubber) (lines : list str)
    (outfile : io.TextIOWrapper) : M unit :=
  match lines with
  | [] => ret tt
  | line :: lines' =>
    bind (_scrub_line self line) (fun sanitized_line =>
    bind (write outfile sanitized_line) (fun outfile' =>
    for_line self lines' outfile'))
  end.

(** Lines 76-80: the inner [try] statement, which handles every
    exception of [os.replace]. *)
Definition replace_inplace (self : LogScrubber) : M unit :=
  fun w => match os_replace (output_file self) (input_file self) w with
           | (Ok _, w') => logging (INFO_scrubbed_inplace (input_file self)) w'
           | (Raise e, w') => logging (ERROR_overwriting e) w'
           end.

(** Lines 62-80: the body of the outer [try] statement. *)
Definition try_scrub (self : LogScrubber) : M unit :=
  bind (determine_encoding self) (fun encoding =>
  bind (read_lines (input_file self) encoding) (fun lines =>
  bind (open_w (output_file self) encoding) (fun outfile =>
  bind (for_line self lines outfile) (fun _ =>
  if inplace self then replace_inplace self else ret tt)))).

(** Lines 81-84: the record the handlers of the outer [try] statement
    log for an exception. *)
Definition handled (self : LogScrubber) (e : exn) : log_record :=
  match e with
  | FileNotFoundError => ERROR_file_not_found (input_file self)
  | _ => ERROR_occurred e
  end.

Definition run {A} (m : M A) (w : world G) : world G := snd (m w).

(** Lines 49-84.  The function returns [None] on every path; its
    effect is the world it leaves. *)
Definition scrub_log (self : LogScrubber) (w : world G) : world G :=
  if falsy (input_file self) || falsy (output_file self)
     || match patterns self with [] => true | _ => false end
  then run (logging ERROR_missing_arguments) w
  else if negb (os_path_exists (input_file self) w)
  then run (logging (ERROR_input_not_found (input_file self))) w
  else
    match try_scrub self w with
    | (Ok _, w') => w'
    | (Raise e, w') => run (logging (handled self e)) w'
    end.
End Program.

(** ** A generator for the examples

    A deterministic stand-in for [Faker]: its state counts the values
    requested so far, and the count shows in each value, so that two
    successive requests never return the same string. *)

Module counting.

Definition digits (n : nat) : str := [chr (48 + N.of_nat (n mod 10))].

#[global] Instance generator : faker.Faker nat := {|
  faker.name g := (py "Jane Doe " ++ digits g, S g);
  faker.email g := (py "user" ++ digits g ++ py "@example.org", S g);
  faker.address g := (digits g ++ py " Main Street", S g);
  faker.phone_number g := (py "555-010" ++ digits g, S g);
  faker.credit_card_number g := (py "400000000000000" ++ digits g, S g)
|}.

(** A world with no files, an empty log and a fresh generator. *)
Definition world0 : world nat :=
  {| fake := 0; log := []; files := fun _ => None |}.

End counting.

(** A generator that stands for a [Faker] whose values hold a
    backslash: each value refers to the whole match. *)

Module echoing.

Definition generator : faker.Faker unit := {|
  faker.name g := (py "<\g<0>>", g);
  faker.email g := (py "<\g<0>>", g);
  faker.address g := (py "<\g<0>>", g);
  faker.phone_number g := (py "<\g<0>>", g);
  faker.credit_card_number g := (py "<\g<0>>", g)
|}.

End echoing.

(** ** A host for the examples

    A POSIX host ([os.linesep] is ['\n']) that knows two codecs, under
    the names [ascii] and [latin-1].  With [errors='ignore'] the first
    leaves out what lies beyond code 127, the second is the identity on
    code points below 256.  The detector answers as [chardet] does on
    an empty file and on plain ASCII text, which is what the files of
    the examples hold. *)

Module example.

Definition ascii_only (c : ascii) : bool := (code c <? 128)%N.

Definition ascii_codec : codecs.CodecInfo := {|
  codecs.decode b := filter ascii_only (map ascii_of_byte b);
  codecs.encode s := map byte_of_ascii (filter ascii_only s)
|}.

Definition latin_1 : codecs.CodecInfo := {|
  codecs.decode b := map ascii_of_byte b;
  codecs.encode s := map byte_of_ascii s
|}.

Definition host (refuses : request -> option exn) : Host := {|
  codecs_lookup encoding :=
    if str_eqb encoding (py "ascii") then Some ascii_codec
    else if str_eqb encoding (py "latin-1") then Some latin_1
    else None;
  locale_getencoding := py "latin-1";
  chardet_detect content :=
    match content with
    | [] => None
    | _ => Some (py "ascii")
    end;
  os_linesep := [LF];
  os_refuses := refuses
|}.

(** The host that refuses nothing. *)
#[global] Instance willing : Host := host (fun _ => None).

(** A host on which [nodir] is not a directory: a file cannot be
    created in it. *)
Definition no_directory : Host :=
  host (fun r => match r with
                 | open_for_writing path =>
                   if str_eqb path (py "nodir/output.log")
                   then Some FileNotFoundError else None
                 | _ => None
                 end).


(** The bytes of a text of code points below 256, one for each
    character. *)
Definition bytes_of (s : str) : bytes := map byte_of_ascii s.

(** The text of a file that holds the given lines, each ended by a
    line feed. *)
Definition unlines (lines : list str) : str :=
  flat_map (fun line => line ++ [LF]) lines.

End example.

(** ** Vocabulary of the statements *)

Definition with_patterns (self : LogScrubber) (ps : list str) : LogScrubber :=
  {| input_file := input_file self; output_file := output_file self;
     patterns := ps; replace_with := replace_with self;
     inplace := inplace self; encoding := encoding self |}.

(** A scrubber whose only attributes of interest are the rules and the
    replacement. *)
Definition scrubber (ps : list str) (r : option str) : LogScrubber :=
  {| input_file := py "input.log"; output_file := py "output.log";
     patterns := ps; replace_with := r;
     inplace := false; encoding := Some (py "ascii") |}.

Definition set_fake {G} (g : G) (w : world G) : world G :=
  {| fake := g; log := log w; files := files w |}.

Definition add_log {G} (r : log_record) (w : world G) : world G :=
  {| fake := fake w; log := log w ++ [r]; files := files w |}.

(** The replacement keywords that select a method of [self.fake]. *)
Definition is_fake_keyword (r : str) : bool :=
  str_eqb r (py "fake_name") || str_eqb r (py "fake_email")
  || str_eqb r (py "fake_address") || str_eqb r (py "fake_phone_number")
  || str_eqb r (py "fake_credit_card_number").

(** The replacement policies of the specification, read off
    [self.replace_with]. *)
Definition is_delete (self : LogScrubber) : Prop := replace_with self = None.

Definition is_literal (self : LogScrubber) (s : str) : Prop :=
  replace_with self = Some s /\ is_fake_keyword s = false.

(** The text between matches is kept; each match is replaced by [v]. *)
Definition replace_each (sc : re.Scan) (v : str) : str :=
  flat_map (fun gm => fst gm ++ v) (fst sc) ++ snd sc.

Definition only_re_error {A} (r : result A) : Prop :=
  forall e, r = Raise e -> e = re_error.

Section Vocabulary.
Context {E : re.Engine} {G : Type} {F : faker.Faker G}.

(** The method a keyword selects. *)
Definition fake_method (r : str) : option (G -> str * G) :=
  if is_keyword "fake_name" r then Some faker.name
  else if is_keyword "fake_email" r then Some faker.email
  else if is_keyword "fake_address" r then Some faker.address
  else if is_keyword "fake_phone_number" r then Some faker.phone_number
  else if is_keyword "fake_credit_card_number" r
       then Some faker.credit_card_number
  else None.

Definition is_synthetic (self : LogScrubber) (method : G -> str * G) : Prop :=
  exists r, replace_with self = Some r /\ fake_method r = Some method.

(** The replacement argument of the call of [re.sub]. *)
Definition repl_arg (self : LogScrubber) : M str :=
  match replace_with self with
  | None => ret []
  | Some r =>
    match fake_method r with
    | Some method => generate method
    | None => ret r
    end
  end.

(** The rule is valid: its pattern compiles. *)
Definition valid (pattern : str) : Prop :=
  exists p, re.compile pattern = Ok p.

(** The rule is invalid: compiling its pattern raises [re.error]. *)
Definition invalid (pattern : str) : Prop :=
  re.compile pattern = Raise re_error.

(** The line holds no match of the rule's pattern. *)
Definition no_match (pattern line : str) : Prop :=
  exists p, re.compile pattern = Ok p /\ fst (re.scan p line) = [].

(** Compiling the pattern raises nothing but [re.error]. *)
Definition pattern_tame (pattern : str) : Prop :=
  only_re_error (re.compile pattern).

(** No replacement the policy can produce makes [re.sub] raise
    anything but [re.error]. *)
Definition policy_tame (self : LogScrubber) : Prop :=
  match replace_with self with
  | None => True
  | Some r =>
    match fake_method r with
    | Some method =>
      forall g n gi, only_re_error (re.compile_repl n gi (fst (method g)))
    | None => forall n gi, only_re_error (re.compile_repl n gi r)
    end
  end.
(** The substitution the specification describes for a synthetic
    policy (section 4.1, step 3), to be compared with [substitute]:
    one freshly generated value for each match. *)
Fixpoint spec_fill_matches (method : G -> str * G)
    (matches : list (str * re.Match)) (g : G) : str * G :=
  match matches with
  | [] => ([], g)
  | (gap, _) :: rest =>
    let (v, g1) := method g in
    let (out, g2) := spec_fill_matches method rest g1 in
    (gap ++ v ++ out, g2)
  end.

Definition spec_substitute_synthetic (method : G -> str * G)
    (p : re.Pattern) (line : str) (g : G) : str * G :=
  let (out, g') := spec_fill_matches method (fst (re.scan p line)) g in
  (out ++ snd (re.scan p line), g').

(** The state of the generator after [n] requests. *)
Definition requests (method : G -> str * G) (n : nat) (g : G) : G :=
  Nat.iter n (fun g' => snd (method g')) g.

(** The output line comes from the input line by [_scrub_line]. *)
Definition derives (self : LogScrubber) (line out : str) : Prop :=
  exists w1 w2 : world G, _scrub_line self line w1 = (Ok out, w2).

(** The rules [rules] are applied one after the other, from the text
    [s] in the world [w]: the substitution of each returns, that of
    the last one with the text [s'] in the world [w']. *)
Fixpoint applies (self : LogScrubber) (rules : list str) (s : str)
    (w : world G) (s' : str) (w' : world G) : Prop :=
  match rules with
  | [] => s' = s /\ w' = w
  | pattern :: rest =>
    exists s1 w1, substitute self pattern s w = (Ok s1, w1)
                  /\ applies self rest s1 w1 s' w'
  end.


End Vocabulary.

(** The replacement is fixed text: [self.replace_with] is [None] or a
    string other than the five keywords. *)
Definition not_synthetic (self : LogScrubber) : Prop :=
  match replace_with self with
  | None => True
  | Some r => is_fake_keyword r = false
  end.

(** The replacement argument of [re.sub] when it is fixed text. *)
Definition fixed_text (self : LogScrubber) : str :=
  match replace_with self with
  | None => []
  | Some r => r
  end.

(** The e-mail rule of the first scenario of the specification. *)
Definition email_rule : str :=
  py "[a-zA-Z0-9._%+-]+@[a-zA-Z0-9.-]+\.[a-zA-Z]{2,}".

(** A world whose only file is [input.log], which holds the given
    lines, each ended by a line feed. *)
Definition input_log (lines : list str) : world nat :=
  set_file (py "input.log")
           (Some (example.bytes_of (example.unlines lines))) counting.world0.

(** ** Vocabulary of the statements on [scrub_log] *)

Section RunVocabulary.
Context {G : Type} {H : Host}.

(** The value of [self.encoding] from line 66 on, when the input file
    holds [content] and can be read: the attribute as given, or what
    [chardet] detects. *)
Definition encoding_used (self : LogScrubber) (content : bytes)
    : option str :=
  match encoding self with
  | Some (c :: e) => Some (c :: e)
  | _ => chardet_detect content
  end.

(** The run passes the checks of lines 53-59 and opens both of its
    files: the input file holds [content], the operating system lets
    the program read it and write the output file, and the encoding of
    the run names the codec [codec]. *)
Definition opens (self : LogScrubber) (w : world G) (content : bytes)
    (codec : codecs.CodecInfo) : Prop :=
  input_file self <> [] /\ output_file self <> [] /\ patterns self <> []
  /\ files w (input_file self) = Some content
  /\ os_refuses (open_for_reading (input_file self)) = None
  /\ codecs_lookup (match encoding_used self content with
                    | Some e => e
                    | None => locale_getencoding
                    end) = Some codec
  /\ os_refuses (open_for_writing (output_file self)) = None.

(** The lines [readlines] returns for a file that holds [content]. *)
Definition input_lines (codec : codecs.CodecInfo) (content : bytes)
    : list str :=
  io.readlines (io.universal_newlines (codecs.decode codec content)).

(** What a file opened for writing holds once the strings [outs] have
    been written to it. *)
Definition output_of (codec : codecs.CodecInfo) (outs : list str) : bytes :=
  match outs with
  | [] => []
  | _ => codecs.encode codec (io.write_newlines os_linesep (List.concat outs))
  end.

(** The file that holds the results of a run that completes: the input
    file once an in-place run has moved the output onto it, the output
    file otherwise, that is when the run is not in place or
    [os.replace] is refused. *)
Definition result_file (self : LogScrubber) : str :=
  if inplace self then
    match os_refuses (replace (output_file self) (input_file self)) with
    | None => input_file self
    | Some _ => output_file self
    end
  else output_file self.

(** The records [scrub_log] logs before and after the loop over the
    lines of a run that completes: line 65, when no encoding is given,
    and line 78 or line 80, when the run is in place. *)
Definition encoding_records (self : LogScrubber) (content : bytes)
    : list log_record :=
  match encoding self with
  | Some (_ :: _) => []
  | _ => [INFO_detected_encoding (chardet_detect content)]
  end.

Definition inplace_records (self : LogScrubber) : list log_record :=
  if inplace self then
    match os_refuses (replace (output_file self) (input_file self)) with
    | None => [INFO_scrubbed_inplace (input_file self)]
    | Some e => [ERROR_overwriting e]
    end
  else [].

End RunVocabulary.

(** ** [main]

    The part of [main] after [parser.parse_args()]: lines 145-151. *)

(** The attributes of the namespace [setup_argparse] declares. *)
Record Namespace : Type := {
  args_input_file : str;
  args_output_file : str;
  args_patterns : list str;
  args_replace_with : option str;
  args_inplace : bool;
  args_encoding : option str
}.

(** [s.startswith(sub)]. *)
Fixpoint startswith (sub s : str) : bool :=
  match sub, s with
  | [], _ => true
  | x :: sub', y :: s' => Ascii.eqb x y && startswith sub' s'
  | _ :: _, [] => false
  end.

(** [sub in s] on strings. *)
Fixpoint contains (sub s : str) : bool :=
  startswith sub s
  || match s with
     | [] => false
     | _ :: s' => contains sub s'
     end.

(** Line 150: the scrubber [main] builds from the arguments. *)
Definition LogScrubber_of (args : Namespace) : LogScrubber :=
  {| input_file := args_input_file args;
     output_file := args_output_file args;
     patterns := args_patterns args;
     replace_with := args_replace_with args;
     inplace := args_inplace args;
     encoding := args_encoding args |}.

(** How [main] ends: with the error of line 146 logged and nothing
    else done, or after [scrub_log]. *)
Inductive main_outcome (G : Type) : Type :=
| Faker_missing
| Scrubbed (w : world G).
Arguments Faker_missing {G}.
Arguments Scrubbed {G} w.

Section Main.
Context {E : re.Engine} {G : Type} {F : faker.Faker G} {H : Host}.

(** [modules] holds the keys of [sys.modules], which the test of line
    145 iterates over. *)
Definition main (args : Namespace) (modules : list str) (w : world G)
    : main_outcome G :=
  if match args_replace_with args with
     | Some r => is_fake_keyword r
     | None => false
     end
     && negb (forallb (contains (py "faker")) modules)
  then Faker_missing
  else Scrubbed (scrub_log (LogScrubber_of args) w).
End Main.

(** ** Further vocabulary *)

(** [a] is [b] with some characters left out. *)
Inductive subseq : str -> str -> Prop :=
| subseq_nil : subseq [] []
| subseq_keep c a b : subseq a b -> subseq (c :: a) (c :: b)
| subseq_drop c a b : subseq a b -> subseq a (c :: b).

(** The pattern of each rule compiles, to the patterns [ps]. *)
Definition compiled {E : re.Engine} (rules : list str)
    (ps : list re.Pattern) : Prop :=
  Forall2 (fun rule p => re.compile rule = Ok p) rules ps.

(** The result of applying the compiled patterns in order, each
    replacing its matches with [text]. *)
Definition replace_all {E : re.Engine} (ps : list re.Pattern)
    (text line : str) : str :=
  fold_left (fun s p => replace_each (re.scan p s) text) ps line.

(** The record of line 115. *)
Definition is_invalid_regex_record (r : log_record) : Prop :=
  exists pattern, r = ERROR_invalid_regex pattern.

(** * Theorems *)

(** ** Strings *)

Lemma str_eqb_spec (a b : str) : reflect (a = b) (str_eqb a b).
Proof.
  revert b; induction a as [|x a IH]; intros [|y b]; simpl;
    try (constructor; congruence).
  destruct (Ascii.eqb_spec x y) as [->|N]; simpl.
  - destruct (IH b) as [->|N]; constructor; congruence.
  - constructor; congruence.
Qed.

Lemma str_eqb_refl (a : str) : str_eqb a a = true.
Proof. destruct (str_eqb_spec a a); congruence. Qed.

(** ** The concrete engine *)

Module sre_facts.
Import sre.

Lemma next_is_tl c (s : str) :
  next_is c s = true -> S (List.length (tl s)) = List.length s.
Proof. destruct s; [discriminate | reflexivity]. Qed.

Lemma tl_length (s : str) : List.length (tl s) <= List.length s.
Proof. destruct s; simpl; lia. Qed.

Lemma class_member_shorter src i rest :
  class_member src = Ok (i, rest) -> List.length rest < List.length src.
Proof.
  destruct src as [|c s]; [discriminate|]. simpl.
  destruct (Ascii.eqb c "\").
  - destruct s as [|e s']; [discriminate|].
    destruct (class_escape e); [|discriminate].
    intros [= _ <-]. simpl. lia.
  - intros [= _ <-]. lia.
Qed.

Lemma class_shorter fuel :
  (forall first src items rest,
      class_items fuel first src = Ok (items, rest) ->
      List.length rest < List.length src)
  /\ (forall i src items rest,
      class_range fuel i src = Ok (items, rest) ->
      List.length rest < List.length src).
Proof.
  induction fuel as [|fuel [IHi IHr]]; [split; discriminate|].
  split.
  - intros first src items rest. cbn [class_items].
    destruct (next_is "]" src && negb first) eqn:Hn.
    + apply andb_prop in Hn. destruct Hn as [Hn _].
      apply next_is_tl in Hn. intros [= _ <-]. lia.
    + destruct (class_member src) as [[i r]|] eqn:Hm; [|discriminate].
      apply class_member_shorter in Hm. intros H. apply IHr in H. lia.
  - intros i src items rest. cbn [class_range].
    assert (K : forall i' r,
      match class_items fuel false r with
      | Ok (more, rest') => Ok (i' :: more, rest')
      | Raise e => Raise e
      end = Ok (items, rest) -> List.length rest < List.length r).
    { intros i' r. destruct (class_items fuel false r) as [[m r']|] eqn:Hc;
        [|discriminate].
      apply IHi in Hc. now intros [= _ <-]. }
    destruct (next_is "-" src) eqn:Hn; [|apply K].
    apply next_is_tl in Hn.
    destruct (tl src) as [|c r] eqn:Ht; [discriminate|].
    destruct (Ascii.eqb c "]").
    + intros [= _ <-]. simpl in Hn. lia.
    + destruct (class_member (c :: r)) as [[j r']|] eqn:Hm; [|discriminate].
      apply class_member_shorter in Hm.
      destruct (class_range_of i j); [|discriminate].
      intros H. apply K in H. lia.
Qed.

Lemma class_fuel f1 : forall f2,
  (forall first src,
      2 * List.length src + 1 <= f1 -> 2 * List.length src + 1 <= f2 ->
      class_items f1 first src = class_items f2 first src)
  /\ (forall i src,
      2 * List.length src + 2 <= f1 -> 2 * List.length src + 2 <= f2 ->
      class_range f1 i src = class_range f2 i src).
Proof.
  induction f1 as [|f1 IH]; intros f2; [split; intros; lia|].
  destruct f2 as [|f2]; [split; intros; lia|].
  destruct (IH f2) as [IHi IHr]. split.
  - intros first src H1 H2. cbn [class_items].
    destruct (next_is "]" src && negb first); [reflexivity|].
    destruct (class_member src) as [[i r]|] eqn:Hm; [|reflexivity].
    apply class_member_shorter in Hm. apply IHr; lia.
  - intros i src H1 H2. cbn [class_range].
    destruct (next_is "-" src) eqn:Hn.
    + apply next_is_tl in Hn.
      destruct (tl src) as [|c r] eqn:Ht; [reflexivity|].
      destruct (Ascii.eqb c "]"); [reflexivity|].
      destruct (class_member (c :: r)) as [[j r']|] eqn:Hm; [|reflexivity].
      apply class_member_shorter in Hm.
      destruct (class_range_of i j); [|reflexivity].
      rewrite (IHi false r') by lia. reflexivity.
    + rewrite (IHi false src) by lia. reflexivity.
Qed.

Lemma take_digits_shorter (s : str) :
  List.length (snd (take_digits s)) <= List.length s.
Proof.
  induction s as [|c s IH]; simpl; [lia|].
  destruct (is_digit c); [|simpl; lia].
  destruct (take_digits s). simpl in *. lia.
Qed.

Lemma braces_rest lo hi r lo' hi' rest :
  braces lo hi r = Quant lo' hi' rest -> rest = r.
Proof.
  unfold braces. destruct (str_eqb r ["\"]); [discriminate|]. cbv zeta.
  destruct (MAXREPEAT <=? _)%N; [discriminate|].
  destruct hi; [now intros [= _ _ <-]|].
  destruct (MAXREPEAT <=? _)%N; [discriminate|].
  destruct (_ <? _)%N; [discriminate | now intros [= _ _ <-]].
Qed.

Lemma parse_quant_shorter src lo hi rest :
  parse_quant src = Quant lo hi rest -> List.length rest < List.length src.
Proof.
  destruct src as [|c s]; [discriminate|]. cbn [parse_quant List.length].
  destruct (Ascii.eqb c "*"); [intros [= _ _ <-]; lia|].
  destruct (Ascii.eqb c "+"); [intros [= _ _ <-]; lia|].
  destruct (Ascii.eqb c "?"); [intros [= _ _ <-]; lia|].
  destruct (Ascii.eqb c "{"); [|discriminate].
  destruct (next_is "}" s); [discriminate|].
  pose proof (take_digits_shorter s) as D1.
  destruct (take_digits s) as [l r1]. simpl in D1.
  destruct (next_is "," r1).
  - pose proof (take_digits_shorter (tl r1)) as D2.
    destruct (take_digits (tl r1)) as [h r2]. simpl in D2.
    destruct (next_is "}" r2); [|discriminate].
    intros H. apply braces_rest in H. subst.
    pose proof (tl_length r1). pose proof (tl_length r2). lia.
  - destruct (next_is "}" r1); [|discriminate].
    intros H. apply braces_rest in H. subst.
    pose proof (tl_length r1). lia.
Qed.

Lemma quantified_shorter i src r rest :
  quantified i src = Ok (r, rest) -> List.length rest <= List.length src.
Proof.
  unfold quantified.
  destruct (parse_quant src) as [|lo hi q|] eqn:Hq;
    [now intros [= _ <-] | | discriminate].
  apply parse_quant_shorter in Hq.
  destruct i; [|discriminate].
  destruct (next_is "?" q); [intros [= _ <-]; pose proof (tl_length q); lia|].
  destruct (next_is "+" q); [discriminate|].
  intros [= _ <-]. lia.
Qed.

Lemma parse_shorter fuel :
  (forall src ng r rest ng',
      parse_branches fuel src ng = Ok (r, rest, ng') ->
      List.length rest <= List.length src)
  /\ (forall src ng r rest ng',
      parse_items fuel src ng = Ok (r, rest, ng') ->
      List.length rest <= List.length src).
Proof.
  induction fuel as [|fuel [IHb IHi]]; [split; discriminate|].
  split.
  - intros src ng r rest ng'. cbn [parse_branches].
    destruct (parse_items fuel src ng) as [[[r1 q] n1]|] eqn:Hi; [|discriminate].
    apply IHi in Hi.
    destruct (next_is "|" q) eqn:Hn; [|now intros [= _ <- _]].
    destruct (parse_branches fuel (tl q) n1) as [[[r2 q'] n2]|] eqn:Hb;
      [|discriminate].
    apply IHb in Hb. intros [= _ <- _]. pose proof (tl_length q). lia.
  - intros src ng r rest ng'. cbn [parse_items].
    assert (A : forall i q n,
      match quantified i q with
      | Raise e => Raise e
      | Ok (r0, rest') =>
        match parse_items fuel rest' n with
        | Raise e => Raise e
        | Ok (r', rest'', ng'') => Ok (seq r0 r', rest'', ng'')
        end
      end = Ok (r, rest, ng') -> List.length rest <= List.length q).
    { intros i q n. destruct (quantified i q) as [[r0 q']|] eqn:Hq; [|discriminate].
      apply quantified_shorter in Hq.
      destruct (parse_items fuel q' n) as [[[r' q''] n'']|] eqn:Hi; [|discriminate].
      apply IHi in Hi. intros [= _ <- _]. lia. }
    assert (Gr : forall (p : result (regex * str * nat)) wrap (q : str),
      (forall r0 q' n', p = Ok (r0, q', n') -> List.length q' <= List.length q) ->
      match p with
      | Raise e => Raise e
      | Ok (r0, rest', ng'0) =>
        if next_is ")" rest'
        then match quantified (IGroup (wrap r0)) (tl rest') with
             | Raise e => Raise e
             | Ok (r1, rest'0) =>
               match parse_items fuel rest'0 ng'0 with
               | Raise e => Raise e
               | Ok (r', rest'', ng'') => Ok (seq r1 r', rest'', ng'')
               end
             end
        else Raise re_error
      end = Ok (r, rest, ng') -> List.length rest <= List.length q).
    { intros p wrap q Hp. destruct p as [[[r0 q'] n']|]; [|discriminate].
      specialize (Hp _ _ _ eq_refl).
      destruct (next_is ")" q'); [|discriminate].
      intros H. apply A in H. pose proof (tl_length q'). lia. }
    destruct src as [|c s]; [now intros [= _ <- _]|].
    destruct (is_in (py "|)") c); [now intros [= _ <- _]|].
    destruct (Ascii.eqb c "\").
    { destruct s as [|e s']; [discriminate|].
      destruct (escape e); [|discriminate].
      intros H. apply A in H. simpl. lia. }
    destruct (negb (is_in SPECIAL_CHARS c)).
    { intros H. apply A in H. simpl. lia. }
    destruct (Ascii.eqb c "[").
    { cbv zeta.
      destruct (class_items _ true _) as [[items q]|] eqn:Hc; [|discriminate].
      apply (proj1 (class_shorter _)) in Hc.
      intros H. apply A in H. simpl.
      destruct (next_is "^" s); [pose proof (tl_length s)|]; lia. }
    destruct (is_in REPEAT_CHARS c).
    { destruct (parse_quant (c :: s)); try discriminate.
      intros H. apply A in H. simpl. lia. }
    destruct (Ascii.eqb c ".").
    { intros H. apply A in H. simpl. lia. }
    destruct (Ascii.eqb c "("); [|discriminate].
    destruct (next_is "?" s).
    + destruct (next_is ":" (tl s)); [|discriminate].
      intros H. apply Gr with (q := tl (tl s)) in H.
      * pose proof (tl_length s). pose proof (tl_length (tl s)). simpl. lia.
      * intros r0 q' n'. apply IHb.
    + intros H. apply Gr with (q := s) in H; [simpl; lia|].
      intros r0 q' n'. apply IHb.
Qed.

Lemma parse_fuel f1 : forall f2,
  (forall src ng,
      2 * List.length src + 2 <= f1 -> 2 * List.length src + 2 <= f2 ->
      parse_branches f1 src ng = parse_branches f2 src ng)
  /\ (forall src ng,
      2 * List.length src + 1 <= f1 -> 2 * List.length src + 1 <= f2 ->
      parse_items f1 src ng = parse_items f2 src ng).
Proof.
  induction f1 as [|f1 IH]; intros f2; [split; intros; lia|].
  destruct f2 as [|f2]; [split; intros; lia|].
  destruct (IH f2) as [IHb IHi]. split.
  - intros src ng H1 H2. cbn [parse_branches].
    rewrite (IHi src ng) by lia.
    destruct (parse_items f2 src ng) as [[[r1 q] n1]|] eqn:Hi; [|reflexivity].
    apply (proj2 (parse_shorter _)) in Hi.
    destruct (next_is "|" q) eqn:Hn; [|reflexivity].
    apply next_is_tl in Hn. rewrite (IHb (tl q) n1) by lia. reflexivity.
  - intros src ng H1 H2. cbn [parse_items].
    assert (A : forall i (q : str) n,
      List.length q < List.length src ->
      match quantified i q with
      | Raise e => Raise e
      | Ok (r0, rest') =>
        match parse_items f1 rest' n with
        | Raise e => Raise e
        | Ok (r', rest'', ng'') => Ok (seq r0 r', rest'', ng'')
        end
      end
      = match quantified i q with
        | Raise e => Raise e
        | Ok (r0, rest') =>
          match parse_items f2 rest' n with
          | Raise e => Raise e
          | Ok (r', rest'', ng'') => Ok (seq r0 r', rest'', ng'')
          end
        end).
    { intros i q n Hq.
      destruct (quantified i q) as [[r0 q']|] eqn:Hqq; [|reflexivity].
      apply quantified_shorter in Hqq. rewrite (IHi q' n) by lia. reflexivity. }
    assert (Gr : forall wrap (q : str) n,
      List.length q < List.length src ->
      match parse_branches f1 q n with
      | Raise e => Raise e
      | Ok (r0, rest', ng'0) =>
        if next_is ")" rest'
        then match quantified (IGroup (wrap r0)) (tl rest') with
             | Raise e => Raise e
             | Ok (r1, rest'0) =>
               match parse_items f1 rest'0 ng'0 with
               | Raise e => Raise e
               | Ok (r', rest'', ng'') => Ok (seq r1 r', rest'', ng'')
               end
             end
        else Raise re_error
      end
      = match parse_branches f2 q n with
        | Raise e => Raise e
        | Ok (r0, rest', ng'0) =>
          if next_is ")" rest'
          then match quantified (IGroup (wrap r0)) (tl rest') with
               | Raise e => Raise e
               | Ok (r1, rest'0) =>
                 match parse_items f2 rest'0 ng'0 with
                 | Raise e => Raise e
                 | Ok (r', rest'', ng'') => Ok (seq r1 r', rest'', ng'')
                 end
               end
          else Raise re_error
        end).
    { intros wrap q n Hq. rewrite (IHb q n) by lia.
      destruct (parse_branches f2 q n) as [[[r0 q'] n']|] eqn:Hb; [|reflexivity].
      apply (proj1 (parse_shorter _)) in Hb.
      destruct (next_is ")" q'); [|reflexivity].
      apply A. pose proof (tl_length q'). lia. }
    destruct src as [|c s]; [reflexivity|]. cbn [List.length] in *.
    destruct (is_in (py "|)") c); [reflexivity|].
    destruct (Ascii.eqb c "\").
    { destruct s as [|e s']; [reflexivity|].
      destruct (escape e); [|reflexivity]. apply A. simpl. lia. }
    destruct (negb (is_in SPECIAL_CHARS c)); [apply A; lia|].
    destruct (Ascii.eqb c "[").
    { cbv zeta.
      destruct (class_items _ true _) as [[items q]|] eqn:Hc; [|reflexivity].
      apply (proj1 (class_shorter _)) in Hc. apply A.
      destruct (next_is "^" s); [pose proof (tl_length s)|]; lia. }
    destruct (is_in REPEAT_CHARS c).
    { destruct (parse_quant (c :: s)); try reflexivity. apply A. lia. }
    destruct (Ascii.eqb c "."); [apply A; lia|].
    destruct (Ascii.eqb c "("); [|reflexivity].
    destruct (next_is "?" s).
    + destruct (next_is ":" (tl s)); [|reflexivity].
      apply Gr. pose proof (tl_length s). pose proof (tl_length (tl s)). lia.
    + apply Gr. lia.
Qed.

(** More fuel than [parse] gives changes nothing. *)
Lemma parse_fuel_enough (pattern : str) (fuel : nat) :
  2 * List.length pattern + 2 <= fuel ->
  parse_branches fuel pattern 0
  = parse_branches (2 * List.length pattern + 2) pattern 0.
Proof. intros H. apply parse_fuel; lia. Qed.

Lemma unscan_emit gap text g sc :
  re.unscan (emit gap text g sc) = gap ++ text ++ re.unscan sc.
Proof.
  unfold re.unscan, emit; simpl. now rewrite <- !app_assoc.
Qed.

Lemma unscan_nil (gap : str) : re.unscan ([], gap) = gap.
Proof. reflexivity. Qed.

Lemma unscan_scan_from p s : forall skip gap,
  re.unscan (scan_from p s skip gap) = gap ++ skipn skip s.
Proof.
  induction s as [|c s IH]; intros skip gap.
  - rewrite skipn_nil, app_nil_r. simpl.
    destruct skip; [|apply unscan_nil].
    destruct (match_here p [] false) as [[n g]|]; [|apply unscan_nil].
    rewrite unscan_emit, unscan_nil. now rewrite app_nil_r.
  - destruct skip as [|skip]; [|apply IH].
    cbn [scan_from skipn].
    destruct (match_here p (c :: s) false) as [[[|n] g]|].
    + rewrite unscan_emit. cbn [app].
      destruct (match_here p (c :: s) true) as [[[|n] g']|];
        try (rewrite IH; reflexivity).
      rewrite unscan_emit, IH. cbn [app firstn].
      now rewrite firstn_skipn.
    + rewrite unscan_emit, IH. cbn [app firstn].
      now rewrite firstn_skipn.
    + rewrite IH, <- app_assoc. reflexivity.
Qed.

Lemma unscan_scan (p : Pattern) (s : str) : re.unscan (scan p s) = s.
Proof. unfold scan. now rewrite unscan_scan_from. Qed.

End sre_facts.

#[global] Instance sre_engine : re.Engine := {|
  re.Pattern := sre.Pattern;
  re.compile := sre.parse;
  re.ngroups := sre.pat_groups;
  re.groupindex := fun _ _ => None;
  re.scan := sre.scan;
  re.scan_covers := sre_facts.unscan_scan
|}.

(** ** The generator of the examples *)

Lemma counting_digits_plain (n : nat) :
  re.has_backslash (counting.digits n) = false.
Proof.
  unfold counting.digits.
  assert (H : n mod 10 < 10) by (apply Nat.mod_upper_bound; lia).
  remember (n mod 10) as k eqn:Hk. clear Hk.
  do 10 (destruct k as [|k]; [reflexivity|]). lia.
Qed.

(** No generated value holds a backslash. *)
Lemma counting_plain (g : nat) :
  re.has_backslash (fst (faker.name g)) = false
  /\ re.has_backslash (fst (faker.email g)) = false
  /\ re.has_backslash (fst (faker.address g)) = false
  /\ re.has_backslash (fst (faker.phone_number g)) = false
  /\ re.has_backslash (fst (faker.credit_card_number g)) = false.
Proof.
  unfold re.has_backslash; cbn [faker.name faker.email faker.address
    faker.phone_number faker.credit_card_number counting.generator fst].
  rewrite !existsb_app. fold (re.has_backslash (counting.digits g)).
  rewrite counting_digits_plain. repeat split; reflexivity.
Qed.

(** ** Scenarios of the specification, run on the concrete engine *)

Example scenario_2 :
  fst (_scrub_line (scrubber [py "password=\w+"] (Some (py "password=REDACTED")))
                   (py "password=hunter2") counting.world0)
  = Ok (py "password=REDACTED").
Proof. reflexivity. Qed.

Example scenario_3 :
  fst (_scrub_line (scrubber [py "\d+\.\d+\.\d+\.\d+"] (Some (py "REDACTED")))
                   (py "IP 192.168.1.1 connected") counting.world0)
  = Ok (py "IP REDACTED connected").
Proof. reflexivity. Qed.

(** ** Facts about [re.sub] *)

Section SubFacts.
Context {E : re.Engine}.

Lemma sub_raise pattern repl string e :
  re.compile pattern = Raise e -> re.sub pattern repl string = Raise e.
Proof. intros H. unfold re.sub. now rewrite H. Qed.

Lemma expand_literal (v : str) (m : re.Match) :
  re.expand (map re.TLit v) m = v.
Proof.
  unfold re.expand. induction v as [|c v IH]; simpl; [reflexivity|].
  now rewrite IH.
Qed.

Lemma join_literal (sc : re.Scan) (v : str) :
  re.join sc (map re.TLit v) = replace_each sc v.
Proof.
  unfold re.join, replace_each. f_equal.
  induction (fst sc) as [|gm l IH]; simpl; [reflexivity|].
  now rewrite expand_literal, IH.
Qed.

Lemma compile_repl_plain n gi (v : str) :
  re.has_backslash v = false -> re.compile_repl n gi v = Ok (map re.TLit v).
Proof. intros H. unfold re.compile_repl. now rewrite H. Qed.

(** A replacement without backslash is inserted as it is. *)
Lemma sub_plain pattern p repl string :
  re.compile pattern = Ok p -> re.has_backslash repl = false ->
  re.sub pattern repl string = Ok (replace_each (re.scan p string) repl).
Proof.
  intros Hc Hb. unfold re.sub.
  now rewrite Hc, compile_repl_plain, join_literal.
Qed.

Lemma replace_each_empty (sc : re.Scan) :
  replace_each sc [] = flat_map fst (fst sc) ++ snd sc.
Proof.
  unfold replace_each. f_equal.
  induction (fst sc) as [|gm l IH]; simpl; [reflexivity|].
  now rewrite IH, app_nil_r.
Qed.

Lemma scan_no_match p (line : str) :
  fst (re.scan p line) = [] -> snd (re.scan p line) = line.
Proof.
  intros H. pose proof (re.scan_covers p line) as C.
  unfold re.unscan in C. now rewrite H in C.
Qed.

(** Without a match, [re.sub] returns its subject or raises what the
    replacement template raises. *)
Lemma sub_no_match pattern p repl line :
  re.compile pattern = Ok p -> fst (re.scan p line) = [] ->
  re.sub pattern repl line
  = match re.compile_repl (re.ngroups p) (re.groupindex p) repl with
    | Ok _ => Ok line
    | Raise e => Raise e
    end.
Proof.
  intros Hc Hn. unfold re.sub. rewrite Hc.
  destruct (re.compile_repl (re.ngroups p) (re.groupindex p) repl);
    [|reflexivity].
  unfold re.join. now rewrite Hn, (scan_no_match _ _ Hn).
Qed.

Lemma plain_only_re_error n gi (v : str) :
  re.has_backslash v = false -> only_re_error (re.compile_repl n gi v).
Proof. intros H e. now rewrite compile_repl_plain. Qed.
End SubFacts.

(** ** Facts about the loop of [_scrub_line] *)

Section LoopFacts.
Context {E : re.Engine} {G : Type} {F : faker.Faker G}.

(** The [try] body evaluates the replacement, then calls [re.sub]. *)
Lemma substitute_repl self pattern s :
  substitute self pattern s
  = bind (repl_arg self) (fun v => lift (re.sub pattern v s)).
Proof.
  unfold substitute, repl_arg, fake_method.
  destruct (replace_with self) as [r|]; [|reflexivity].
  repeat (destruct (is_keyword _ r); [reflexivity|]).
  reflexivity.
Qed.

(** Evaluating the replacement returns; it changes at most the
    generator. *)
Lemma repl_arg_returns self (w : world G) :
  exists v g, repl_arg self w = (Ok v, set_fake g w) \/
              (repl_arg self w = (Ok v, w) /\ g = fake w).
Proof.
  unfold repl_arg. destruct (replace_with self) as [r|].
  - destruct (fake_method r) as [m|].
    + unfold generate. destruct (m (fake w)) as [v g] eqn:Hm.
      exists v, g. now left.
    + exists r, (fake w). now right.
  - exists [], (fake w). now right.
Qed.

Lemma substitute_frame self pattern s (w : world G) :
  log (snd (substitute self pattern s w)) = log w
  /\ files (snd (substitute self pattern s w)) = files w.
Proof.
  rewrite substitute_repl. unfold bind, lift.
  destruct (repl_arg_returns self w) as (v & g & [H | [H _]]);
    rewrite H; now destruct (re.sub pattern v s).
Qed.

Lemma substitute_invalid self pattern s (w : world G) :
  invalid pattern -> fst (substitute self pattern s w) = Raise re_error.
Proof.
  intros H. rewrite substitute_repl. unfold bind, lift.
  destruct (repl_arg_returns self w) as (v & g & [R | [R _]]);
    rewrite R; now rewrite (sub_raise _ _ _ _ H).
Qed.

Lemma for_pattern_ok self line pattern rest s s' (w w' : world G) :
  substitute self pattern s w = (Ok s', w') ->
  for_pattern self line (pattern :: rest) s w = for_pattern self line rest s' w'.
Proof. intros H. simpl. now rewrite H. Qed.

Lemma for_pattern_re_error self line pattern rest s (w w' : world G) :
  substitute self pattern s w = (Raise re_error, w') ->
  for_pattern self line (pattern :: rest) s w
  = (Ok line, add_log (ERROR_invalid_regex pattern) w').
Proof. intros H. simpl. now rewrite H. Qed.

Lemma for_pattern_raise self line pattern rest s e (w w' : world G) :
  substitute self pattern s w = (Raise e, w') -> e <> re_error ->
  for_pattern self line (pattern :: rest) s w = (Raise e, w').
Proof. intros H N. simpl. rewrite H. now destruct e. Qed.

(** Past an invalid pattern the loop does not complete. *)
Lemma for_pattern_invalid self line rest : forall s (w : world G),
  (exists p, In p rest /\ invalid p) ->
  (exists q w', In q rest /\ for_pattern self line rest s w = (Ok line, w')
                /\ log w' = log w ++ [ERROR_invalid_regex q]
                /\ files w' = files w)
  \/ (exists e w', e <> re_error
                   /\ for_pattern self line rest s w = (Raise e, w')).
Proof.
  induction rest as [|p rest IH]; intros s w (p0 & Hin & Hinv).
  - destruct Hin.
  - destruct (substitute_frame self p s w) as [Hl Hf].
    destruct (substitute self p s w) as [[s'|e] w'] eqn:Hs; simpl in Hl, Hf.
    + rewrite (for_pattern_ok _ _ _ _ _ _ _ _ Hs).
      destruct Hin as [<- | Hin].
      * pose proof (substitute_invalid self p s w Hinv) as C.
        rewrite Hs in C. discriminate.
      * destruct (IH s' w' (ex_intro _ p0 (conj Hin Hinv)))
          as [(q & w2 & I & R & L & Fi) | (e & w2 & N & R)].
        -- left. exists q, w2. repeat split;
             [now right | assumption | congruence | congruence].
        -- right. now exists e, w2.
    + destruct e;
        try (right; eexists _, w'; split; [|
             apply (for_pattern_raise _ _ _ _ _ _ _ _ Hs)]; discriminate).
      left. exists p, (add_log (ERROR_invalid_regex p) w').
      repeat split;
        [now left | apply (for_pattern_re_error _ _ _ _ _ _ _ Hs)
         | simpl; now rewrite Hl | assumption].
Qed.

Lemma substitute_tame self pattern s (w : world G) :
  policy_tame self -> pattern_tame pattern ->
  only_re_error (fst (substitute self pattern s w)).
Proof.
  intros Hp Hc e. rewrite substitute_repl. unfold bind, lift.
  unfold policy_tame, repl_arg in *.
  assert (S : forall v, (forall n gi, only_re_error (re.compile_repl n gi v)) ->
                        re.sub pattern v s = Raise e -> e = re_error).
  { intros v Hv. unfold re.sub.
    destruct (re.compile pattern) as [p|e'] eqn:Hcp.
    - destruct (re.compile_repl (re.ngroups p) (re.groupindex p) v) eqn:Hr;
        [discriminate|].
      intros [= <-]. now apply (Hv _ _ _ Hr).
    - intros [= <-]. now apply Hc. }
  destruct (replace_with self) as [r|].
  - destruct (fake_method r) as [m|].
    + unfold generate. destruct (m (fake w)) as [v g] eqn:Hm. simpl.
      apply S. intros n gi. specialize (Hp (fake w) n gi). now rewrite Hm in Hp.
    + simpl. now apply S.
  - simpl. apply S. intros n gi. now apply plain_only_re_error.
Qed.

(** With tame patterns and a tame policy [_scrub_line] returns. *)
Lemma scrub_line_returns self line (w : world G) :
  policy_tame self -> Forall pattern_tame (patterns self) ->
  exists s w', _scrub_line self line w = (Ok s, w') /\ files w' = files w.
Proof.
  intros Hp Hc. unfold _scrub_line.
  generalize line at 2. revert w.
  induction (patterns self) as [|p rest IH]; intros w s.
  - now exists s, w.
  - inversion Hc as [|? ? Hp1 Hrest]; subst.
    destruct (substitute_frame self p s w) as [_ Hf].
    pose proof (substitute_tame self p s w Hp Hp1) as T.
    destruct (substitute self p s w) as [[s'|e] w'] eqn:Hs; simpl in Hf, T.
    + rewrite (for_pattern_ok _ _ _ _ _ _ _ _ Hs).
      destruct (IH Hrest w' s') as (s2 & w2 & R & Fi).
      exists s2, w2. split; [assumption | congruence].
    + rewrite (T e eq_refl) in Hs.
      rewrite (for_pattern_re_error _ _ _ _ _ _ _ Hs).
      eexists _, _. split; [reflexivity | assumption].
Qed.
(** The effects of the loop, whatever its outcome. *)
Lemma for_pattern_effects self line rest : forall s (w : world G) r w',
  for_pattern self line rest s w = (r, w') ->
  files w' = files w
  /\ r <> Raise re_error
  /\ (log w' = log w
      \/ exists q, In q rest /\ r = Ok line
                   /\ log w' = log w ++ [ERROR_invalid_regex q]).
Proof.
  induction rest as [|p rest IH]; intros s w r w' H.
  - injection H as <- <-. repeat split; [discriminate | now left].
  - destruct (substitute_frame self p s w) as [Hl Hf].
    destruct (substitute self p s w) as [[s'|e] w1] eqn:Hs; simpl in Hl, Hf.
    + rewrite (for_pattern_ok _ _ _ _ _ _ _ _ Hs) in H.
      destruct (IH _ _ _ _ H) as (Fi & N & [L | (q & I & R & L)]).
      * repeat split; [congruence | exact N | left; congruence].
      * repeat split; [congruence | exact N|].
        right. exists q. repeat split; [now right | exact R | congruence].
    + destruct e;
        try (rewrite (for_pattern_raise _ _ _ _ _ _ _ _ Hs) in H
               by discriminate;
             injection H as <- <-;
             repeat split; [assumption | discriminate | now left]).
      rewrite (for_pattern_re_error _ _ _ _ _ _ _ Hs) in H.
      injection H as <- <-. repeat split; [assumption | discriminate|].
      right. exists p. simpl. repeat split; [now left | now rewrite Hl].
Qed.
End LoopFacts.

(** ** The claims *)

Section Claims.
Context {E : re.Engine} {G : Type} {F : faker.Faker G}.

Lemma applies_log self : forall rules s (w : world G) s' w',
  applies self rules s w s' w' -> log w' = log w /\ files w' = files w.
Proof.
  induction rules as [|p rules IH]; intros s w s' w' A.
  - destruct A as [_ ->]. now split.
  - destruct A as (s1 & w1 & Hs & A).
    destruct (IH _ _ _ _ A) as [L Fi].
    destruct (substitute_frame self p s w) as [L1 F1].
    rewrite Hs in L1, F1. simpl in L1, F1. split; congruence.
Qed.

(** Up to an invalid rule the loop stops at the first rule whose
    substitution raises. *)
Lemma for_pattern_first_raise self line bad post :
  invalid bad ->
  forall pre s (w : world G),
  exists done q rest s1 w1 e w2,
    pre ++ [bad] = done ++ q :: rest
    /\ applies self done s w s1 w1
    /\ substitute self q s1 w1 = (Raise e, w2)
    /\ (e = re_error ->
        for_pattern self line (pre ++ bad :: post) s w
        = (Ok line, add_log (ERROR_invalid_regex q) w2))
    /\ (e <> re_error ->
        for_pattern self line (pre ++ bad :: post) s w = (Raise e, w2)
        /\ rest <> []).
Proof.
  intros Hb. induction pre as [|p pre IH]; intros s w.
  - pose proof (substitute_invalid self bad s w Hb) as K.
    destruct (substitute self bad s w) as [r w2] eqn:Hs. simpl in K. subst r.
    exists [], bad, [], s, w, re_error, w2. repeat split.
    + exact Hs.
    + intros _. cbn [app]. apply (for_pattern_re_error _ _ _ _ _ _ _ Hs).
    + congruence.
    + congruence.
  - destruct (substitute self p s w) as [[s'|e] w'] eqn:Hs.
    + destruct (IH s' w') as (done & q & rest & s1 & w1 & e & w2
                               & Hd & A & R & K1 & K2).
      exists (p :: done), q, rest, s1, w1, e, w2. repeat split.
      * cbn [app]. now rewrite Hd.
      * cbn [applies]. now exists s', w'.
      * exact R.
      * intros He. cbn [app]. rewrite (for_pattern_ok _ _ _ _ _ _ _ _ Hs).
        now apply K1.
      * cbn [app]. rewrite (for_pattern_ok _ _ _ _ _ _ _ _ Hs).
        now apply K2.
      * now apply K2.
    + exists [], p, (pre ++ [bad]), s, w, e, w'. repeat split.
      * exact Hs.
      * intros ->. cbn [app].
        apply (for_pattern_re_error _ _ _ _ _ _ _ Hs).
      * cbn [app]. now apply (for_pattern_raise _ _ _ _ _ _ _ _ Hs).
      * now destruct pre.
Qed.

(** C1, as amended.  When the rule [bad] is invalid, the rules are
    applied in order up to the first one whose substitution raises,
    [q], which is [bad] or a rule before it; nothing is logged up to
    there.  If [q] raises [re.error], [_scrub_line] returns the
    original line and logs one record, which names [q].  If [q] raises
    another exception, then [q] is a rule before [bad], the exception
    leaves [_scrub_line] and nothing is logged.  The second case does
    not occur when the substitutions of the rules before [bad] raise
    nothing but [re.error]. *)
Theorem invalid_pattern_returns_original self pre bad post line
    (w : world G) :
  patterns self = pre ++ bad :: post -> invalid bad ->
  exists done q rest s w1 e w2,
    pre ++ [bad] = done ++ q :: rest
    /\ applies self done line w s w1
    /\ substitute self q s w1 = (Raise e, w2)
    /\ log w2 = log w
    /\ (e = re_error ->
        _scrub_line self line w
        = (Ok line, add_log (ERROR_invalid_regex q) w2))
    /\ (e <> re_error ->
        _scrub_line self line w = (Raise e, w2) /\ In q pre /\ rest <> [])
    /\ ((forall p s0 (w0 : world G),
            In p pre -> only_re_error (fst (substitute self p s0 w0))) ->
        e = re_error).
Proof.
  intros Hp Hb. unfold _scrub_line. rewrite Hp.
  destruct (for_pattern_first_raise self line bad post Hb pre line w)
    as (done & q & rest & s & w1 & e & w2 & Hd & A & R & K1 & K2).
  assert (Hq : rest <> [] -> In q pre).
  { intros Hr. destruct (exists_last Hr) as (rest' & x & ->).
    change (q :: rest' ++ [x]) with ((q :: rest') ++ [x]) in Hd.
    rewrite app_assoc in Hd. apply app_inj_tail in Hd. destruct Hd as [-> _].
    apply in_or_app. right. now left. }
  exists done, q, rest, s, w1, e, w2. repeat split; try assumption.
  - destruct (applies_log _ _ _ _ _ _ A) as [L _].
    destruct (substitute_frame self q s w1) as [L1 _].
    rewrite R in L1. simpl in L1. congruence.
  - now apply K2.
  - apply Hq. now apply K2.
  - now apply K2.
  - intros Ht. destruct e; try reflexivity;
      (assert (N : rest <> []) by (apply K2; discriminate);
       specialize (Ht q s w1 (Hq N)); rewrite R in Ht;
       now apply Ht).
Qed.

End Claims.

(** C1 fails as stated: the second rule's pattern is invalid, yet the
    first rule's substitution raises [IndexError] for the unknown group
    name in the replacement, and [_scrub_line] raises instead of
    returning the original line. *)
Lemma invalid_pattern_not_reached :
  let self := scrubber [py "a"; py "("] (Some (py "\g<x>")) in
  In (py "(") (patterns self) /\ invalid (py "(")
  /\ _scrub_line self (py "a") counting.world0
     = (Raise IndexError, counting.world0).
Proof. repeat split. simpl; auto. Qed.

Lemma invalid_pattern_returns_original_witness :
  exists q w2,
    _scrub_line (scrubber [py "\d"; py "("; py "b"] (Some (py "#")))
                (py "a1b") counting.world0
    = (Ok (py "a1b"), add_log (ERROR_invalid_regex q) w2)
    /\ log w2 = [].
Proof.
  destruct (@invalid_pattern_returns_original sre_engine nat
              counting.generator
              (scrubber [py "\d"; py "("; py "b"] (Some (py "#")))
              [py "\d"] (py "(") [py "b"] (py "a1b") counting.world0
              eq_refl eq_refl)
    as (done & q & rest & s & w1 & e & w2 & _ & _ & _ & L & K & _ & T).
  exists q, w2. split; [|exact L]. apply K, T.
  intros p s0 w0 [<-|[]] e' He.
  change (re.sub (py "\d") (py "#") s0 = Raise e') in He.
  destruct (re.compile (py "\d")) as [c|] eqn:Hc; [|discriminate].
  rewrite (sub_plain _ _ (py "#") s0 Hc eq_refl) in He. discriminate.
Defined.

(** ** Synthetic replacement *)

Section Synthetic.
Context {E : re.Engine} {G : Type} {F : faker.Faker G}.

(** Under a synthetic policy the [try] body calls the generator once
    and passes the value to [re.sub]. *)
Lemma substitute_synthetic self method pattern s (w : world G) :
  is_synthetic self method ->
  substitute self pattern s w
  = (re.sub pattern (fst (method (fake w))) s,
     set_fake (snd (method (fake w))) w).
Proof.
  intros (r & Hr & Hm). rewrite substitute_repl.
  unfold bind, repl_arg, generate, lift. rewrite Hr, Hm.
  now destruct (method (fake w)).
Qed.

(** C2, as amended.  Under a synthetic policy one value is generated
    for the rule, whatever the number of match sites, and every match
    site of the rule in the line receives that same value. *)
Theorem synthetic_value_shared_by_matches self method pattern p line
    (w : world G) :
  is_synthetic self method ->
  patterns self = [pattern] ->
  re.compile pattern = Ok p ->
  re.has_backslash (fst (method (fake w))) = false ->
  _scrub_line self line w
  = (Ok (replace_each (re.scan p line) (fst (method (fake w)))),
     set_fake (snd (method (fake w))) w).
Proof.
  intros Hs Hp Hc Hb. unfold _scrub_line. rewrite Hp.
  cbn [for_pattern]. rewrite (substitute_synthetic _ _ _ _ _ Hs).
  now rewrite (sub_plain _ _ _ _ Hc Hb).
Qed.

Lemma for_pattern_synthetic self method line :
  is_synthetic self method ->
  (forall g, re.has_backslash (fst (method g)) = false) ->
  forall rest s (w : world G), Forall valid rest ->
  exists out w', for_pattern self line rest s w = (Ok out, w')
                 /\ fake w' = requests method (List.length rest) (fake w).
Proof.
  intros Hs Hb. induction rest as [|p rest IH]; intros s w Hv.
  - now exists s, w.
  - inversion Hv as [|? ? [c Hc] Hrest]; subst.
    cbn [for_pattern]. rewrite (substitute_synthetic _ _ _ _ _ Hs).
    rewrite (sub_plain _ _ _ _ Hc (Hb _)).
    destruct (IH (replace_each (re.scan c s) (fst (method (fake w))))
                 (set_fake (snd (method (fake w))) w) Hrest)
      as (out & w' & R & Fk).
    exists out, w'. split; [exact R|].
    rewrite Fk. unfold requests. cbn [List.length]. now rewrite Nat.iter_succ_r.
Qed.






End Synthetic.

(** C2 fails as stated: with two addresses in the line, the generator
    is asked once, and both sites receive the value of that one
    request; one request for each match, as the specification has it,
    gives two different values and leaves the generator two requests
    further. *)
Lemma synthetic_value_not_per_match :
  let self := scrubber [email_rule] (Some (py "fake_email")) in
  let line := py "from ann@corp.example to bob@corp.example" in
  _scrub_line self line counting.world0
  = (Ok (py "from user0@example.org to user0@example.org"),
     set_fake 1 counting.world0)
  /\ (exists p, re.compile email_rule = Ok p
        /\ spec_substitute_synthetic faker.email p line 0
           = (py "from user0@example.org to user1@example.org", 2)).
Proof.
  split; [reflexivity|].
  destruct (re.compile email_rule) as [p|] eqn:H; [|discriminate].
  exists p. split; [reflexivity|].
  vm_compute in H. injection H as <-. reflexivity.
Qed.

Lemma synthetic_value_shared_by_matches_witness :
  _scrub_line (scrubber [email_rule] (Some (py "fake_email")))
              (py "ann@corp.example, bob@corp.example") counting.world0
  = (Ok (py "user0@example.org, user0@example.org"),
     set_fake 1 counting.world0).
Proof.
  destruct (re.compile email_rule) as [p|] eqn:H; [|discriminate].
  rewrite (@synthetic_value_shared_by_matches sre_engine nat counting.generator
             (scrubber [email_rule] (Some (py "fake_email")))
             faker.email email_rule p _ counting.world0);
    [ | eexists; split; reflexivity | reflexivity | exact H | reflexivity].
  vm_compute in H. injection H as <-. reflexivity.
Defined.



(** ** Deletion and literal replacement *)

Section Fixed.
Context {E : re.Engine} {G : Type} {F : faker.Faker G}.

Lemma fake_method_none (r : str) :
  is_fake_keyword r = false -> fake_method r = None.
Proof.
  unfold is_fake_keyword, fake_method, is_keyword. intros H.
  repeat (apply orb_false_elim in H; destruct H as [H ?]).
  now repeat match goal with K : str_eqb _ _ = false |- _ => rewrite K; clear K end.
Qed.

(** With fixed text the [try] body is one call of [re.sub] and leaves
    the world as it is. *)
Lemma substitute_fixed self pattern s (w : world G) :
  not_synthetic self ->
  substitute self pattern s w = (re.sub pattern (fixed_text self) s, w).
Proof.
  intros H. rewrite substitute_repl. unfold not_synthetic, fixed_text in *.
  unfold bind, repl_arg, lift.
  destruct (replace_with self) as [r|]; [|reflexivity].
  now rewrite (fake_method_none r H).
Qed.

(** C4, as amended.  Under a literal replacement [s] that holds no
    backslash, a valid rule replaces each match of its pattern with
    [s], the same characters at every match site, and keeps the text
    between the matches. *)
Theorem literal_replaces_each_match self s pattern p line (w : world G) :
  is_literal self s ->
  re.has_backslash s = false ->
  patterns self = [pattern] ->
  re.compile pattern = Ok p ->
  line = re.unscan (re.scan p line)
  /\ _scrub_line self line w = (Ok (replace_each (re.scan p line) s), w).
Proof.
  intros [Hr Hk] Hb Hp Hc. split; [now rewrite re.scan_covers|].
  unfold _scrub_line. rewrite Hp. cbn [for_pattern].
  rewrite substitute_fixed by (unfold not_synthetic; now rewrite Hr).
  unfold fixed_text. rewrite Hr. now rewrite (sub_plain _ _ _ _ Hc Hb).
Qed.

(** The part of C5 that holds of every engine: under deletion a valid
    rule removes each match of its pattern and keeps the text between
    the matches. *)
Lemma delete_removes_each_match self pattern p line (w : world G) :
  is_delete self ->
  patterns self = [pattern] ->
  re.compile pattern = Ok p ->
  line = re.unscan (re.scan p line)
  /\ _scrub_line self line w
     = (Ok (flat_map fst (fst (re.scan p line)) ++ snd (re.scan p line)), w).
Proof.
  intros Hr Hp Hc. split; [now rewrite re.scan_covers|].
  unfold _scrub_line. rewrite Hp. cbn [for_pattern].
  rewrite substitute_fixed by (unfold not_synthetic; now rewrite Hr).
  unfold fixed_text. rewrite Hr.
  now rewrite (sub_plain _ _ [] _ Hc eq_refl), replace_each_empty.
Qed.

(** C6, as amended.  When the substitution of rule [A] returns on the
    line and that of rule [B] returns on its result, scrubbing with
    [A; B] is scrubbing with [A] alone and then scrubbing the result
    with [B] alone. *)
Theorem rules_chain self A B line l1 l2 (w w1 w2 : world G) :
  substitute self A line w = (Ok l1, w1) ->
  substitute self B l1 w1 = (Ok l2, w2) ->
  _scrub_line (with_patterns self [A]) line w = (Ok l1, w1)
  /\ _scrub_line (with_patterns self [B]) l1 w1 = (Ok l2, w2)
  /\ _scrub_line (with_patterns self [A; B]) line w = (Ok l2, w2).
Proof.
  intros HA HB. unfold _scrub_line. cbn [patterns with_patterns for_pattern].
  change (substitute (with_patterns self [A])) with (substitute self).
  change (substitute (with_patterns self [B])) with (substitute self).
  change (substitute (with_patterns self [A; B])) with (substitute self).
  now rewrite HA, HB.
Qed.

Lemma repl_arg_tame self (w : world G) :
  policy_tame self ->
  exists v w', repl_arg self w = (Ok v, w')
               /\ files w' = files w
               /\ forall n gi, only_re_error (re.compile_repl n gi v).
Proof.
  unfold policy_tame, repl_arg. intros H.
  destruct (replace_with self) as [r|].
  - destruct (fake_method r) as [m|].
    + unfold generate. specialize (H (fake w)).
      destruct (m (fake w)) as [v g]. now eexists _, _.
    + now exists r, w.
  - exists [], w. repeat split. intros n gi. now apply plain_only_re_error.
Qed.

(** C8, as amended.  A line that holds no match of any rule's pattern
    is returned as it is, under every policy whose replacement makes
    [re.sub] raise nothing but [re.error]. *)
Theorem no_match_line_unchanged self line (w : world G) :
  Forall (fun pattern => no_match pattern line) (patterns self) ->
  policy_tame self ->
  exists w', _scrub_line self line w = (Ok line, w') /\ files w' = files w.
Proof.
  intros Hn Ht. unfold _scrub_line. revert w.
  induction (patterns self) as [|pattern rest IH]; intros w.
  - now exists w.
  - inversion Hn as [|? ? (p & Hc & Hm) Hrest]; subst.
    cbn [for_pattern]. rewrite substitute_repl. unfold bind, lift.
    destruct (repl_arg_tame self w Ht) as (v & w' & R & Fi & T).
    rewrite R, (sub_no_match _ _ _ _ Hc Hm).
    destruct (re.compile_repl (re.ngroups p) (re.groupindex p) v)
      as [t|e] eqn:Hr.
    + destruct (IH Hrest w') as (w2 & R2 & F2).
      exists w2. split; [exact R2 | congruence].
    + rewrite (T _ _ _ Hr). eexists. split; [reflexivity | exact Fi].
Qed.

(** With fixed text the loop neither reads nor changes the world. *)
Lemma for_pattern_fixed_world self line :
  not_synthetic self ->
  forall rest s (w1 w2 : world G),
    fst (for_pattern self line rest s w1) = fst (for_pattern self line rest s w2)
    /\ fake (snd (for_pattern self line rest s w1)) = fake w1.
Proof.
  intros Hn. induction rest as [|p rest IH]; intros s w1 w2.
  - now split.
  - cbn [for_pattern]. rewrite !substitute_fixed by exact Hn.
    destruct (re.sub p (fixed_text self) s) as [s'|e]; [apply IH|].
    destruct e; now split.
Qed.

End Fixed.

(** C10.  Under deletion or a literal replacement the randomness
    source is never consulted: the result of [_scrub_line] is the same
    for any two generators in any two states, and each generator is
    left in the state it was in. *)
Theorem fixed_text_is_deterministic {E : re.Engine} {G1 G2 : Type}
    {F1 : faker.Faker G1} {F2 : faker.Faker G2}
    self line (w1 : world G1) (w2 : world G2) :
  not_synthetic self ->
  fst (_scrub_line self line w1) = fst (_scrub_line self line w2)
  /\ fake (snd (_scrub_line self line w1)) = fake w1
  /\ fake (snd (_scrub_line self line w2)) = fake w2.
Proof.
  intros H. unfold _scrub_line. generalize line at 2 4 6 8. revert w1 w2.
  induction (patterns self) as [|p rest IH]; intros w1 w2 s.
  - now repeat split.
  - cbn [for_pattern]. rewrite !substitute_fixed by exact H.
    destruct (re.sub p (fixed_text self) s) as [s'|e].
    + apply IH.
    + destruct e; now repeat split.
Qed.

(** C5.  Under deletion a valid rule replaces each match of its
    pattern with the empty string: the result is the text between the
    matches; and the line [User john@example.com logged in], scrubbed
    with the e-mail rule, becomes [User  logged in]. *)
Theorem delete_removes_matches :
  (forall (E : re.Engine) (G : Type) (F : faker.Faker G)
          self pattern p line (w : world G),
      is_delete self ->
      patterns self = [pattern] ->
      re.compile pattern = Ok p ->
      line = re.unscan (re.scan p line)
      /\ _scrub_line self line w
         = (Ok (flat_map fst (fst (re.scan p line)) ++ snd (re.scan p line)),
            w))
  /\ _scrub_line (scrubber [email_rule] None)
                 (py "User john@example.com logged in") counting.world0
     = (Ok (py "User  logged in"), counting.world0).
Proof.
  split; [|reflexivity].
  intros E G F self pattern p line w Hd Hp Hc.
  exact (delete_removes_each_match self pattern p line w Hd Hp Hc).
Qed.

Lemma delete_removes_matches_witness :
  _scrub_line (scrubber [py "\d+"] None) (py "pid 4711 exit 9")
              counting.world0
  = (Ok (py "pid  exit "), counting.world0).
Proof.
  destruct (re.compile (py "\d+")) as [p|] eqn:H; [|discriminate].
  rewrite (proj2 (proj1 delete_removes_matches sre_engine nat
                    counting.generator (scrubber [py "\d+"] None) (py "\d+") p
                    (py "pid 4711 exit 9") counting.world0
                    eq_refl eq_refl H)).
  vm_compute in H. injection H as <-. reflexivity.
Defined.

(** C4 fails as stated: the replacement text is read as a template.
    The two characters backslash and [n] put a line feed at the match
    site, and a reference to a group the pattern lacks makes [re.sub]
    raise [re.error], so that the match is not replaced at all. *)
Lemma literal_text_is_a_template :
  is_literal (scrubber [py "a"] (Some (py "\n"))) (py "\n")
  /\ _scrub_line (scrubber [py "a"] (Some (py "\n"))) (py "a b")
                 counting.world0
     = (Ok (chr 10 :: py " b"), counting.world0)
  /\ chr 10 :: py " b" <> py "\n b"
  /\ _scrub_line (scrubber [py "a"] (Some (py "\1"))) (py "a b")
                 counting.world0
     = (Ok (py "a b"), add_log (ERROR_invalid_regex (py "a")) counting.world0).
Proof. repeat split. discriminate. Qed.

Lemma literal_replaces_each_match_witness :
  _scrub_line (scrubber [py "password=\w+"] (Some (py "password=REDACTED")))
              (py "password=hunter2 password=12345") counting.world0
  = (Ok (py "password=REDACTED password=REDACTED"), counting.world0).
Proof.
  destruct (re.compile (py "password=\w+")) as [p|] eqn:H; [|discriminate].
  rewrite (proj2 (@literal_replaces_each_match sre_engine nat
                    counting.generator
                    (scrubber [py "password=\w+"] (Some (py "password=REDACTED")))
                    (py "password=REDACTED") (py "password=\w+") p
                    (py "password=hunter2 password=12345") counting.world0
                    (conj eq_refl eq_refl) eq_refl eq_refl H)).
  vm_compute in H. injection H as <-. reflexivity.
Defined.

(** C6 fails as stated: both patterns are valid, but the replacement
    refers to a group that only the first pattern has.  In the list,
    the second rule raises [re.error] and the line comes back as it
    was given; alone on the result of the first rule, it returns that
    result. *)
Lemma chain_broken_by_group_reference :
  let self := scrubber [py "(a)"; py "b"] (Some (py "\1\1")) in
  valid (py "(a)") /\ valid (py "b")
  /\ fst (_scrub_line self (py "ab") counting.world0) = Ok (py "ab")
  /\ fst (_scrub_line (with_patterns self [py "(a)"]) (py "ab")
                      counting.world0) = Ok (py "aab")
  /\ fst (_scrub_line (with_patterns self [py "b"]) (py "aab")
                      counting.world0) = Ok (py "aab").
Proof. repeat split; eexists; reflexivity. Qed.

Lemma rules_chain_witness :
  let self := scrubber [] (Some (py "REDACTED")) in
  _scrub_line (with_patterns self [py "hunter\d"]) (py "password=hunter2")
              counting.world0
  = (Ok (py "password=REDACTED"), counting.world0)
  /\ _scrub_line (with_patterns self [py "RED"]) (py "password=REDACTED")
                 counting.world0
     = (Ok (py "password=REDACTEDACTED"), counting.world0)
  /\ _scrub_line (with_patterns self [py "hunter\d"; py "RED"])
                 (py "password=hunter2") counting.world0
     = (Ok (py "password=REDACTEDACTED"), counting.world0).
Proof.
  apply (@rules_chain sre_engine nat counting.generator
           (scrubber [] (Some (py "REDACTED"))) (py "hunter\d") (py "RED")
           (py "password=hunter2") (py "password=REDACTED")
           (py "password=REDACTEDACTED")); reflexivity.
Defined.

(** C8 fails as stated: the line holds no match, but the replacement
    names a group that does not exist, [re.sub] raises [IndexError]
    before it looks for a match, and [_scrub_line] raises. *)
Lemma no_match_line_can_raise :
  no_match (py "a") (py "b")
  /\ _scrub_line (scrubber [py "a"] (Some (py "\g<x>"))) (py "b")
                 counting.world0
     = (Raise IndexError, counting.world0).
Proof. split; [eexists; split; reflexivity | reflexivity]. Qed.

Lemma no_match_line_unchanged_witness :
  exists w',
    _scrub_line (scrubber [email_rule; py "\d+"] (Some (py "fake_name")))
                (py "nothing to hide") counting.world0
    = (Ok (py "nothing to hide"), w')
    /\ files w' = files counting.world0.
Proof.
  apply (@no_match_line_unchanged sre_engine nat counting.generator).
  - repeat constructor; eexists; split; reflexivity.
  - intros g n gi. apply plain_only_re_error, counting_plain.
Defined.

Lemma fixed_text_is_deterministic_witness :
  let self := scrubber [email_rule] (Some (py "<email>")) in
  let line := py "mail ann@corp.example now" in
  fst (_scrub_line self line counting.world0)
  = fst (_scrub_line self line (set_fake 7 counting.world0))
  /\ fake (snd (_scrub_line self line counting.world0)) = 0
  /\ fake (snd (_scrub_line self line (set_fake 7 counting.world0))) = 7.
Proof.
  apply (@fixed_text_is_deterministic sre_engine nat nat counting.generator
           counting.generator).
  reflexivity.
Defined.

(** ** Text files *)

Lemma readlines_concat (s : str) : List.concat (io.readlines s) = s.
Proof.
  induction s as [|c s IH]; [reflexivity|].
  cbn [io.readlines]. destruct (Ascii.eqb c LF).
  - cbn [List.concat app]. now rewrite IH.
  - destruct (io.readlines s) as [|line lines]; cbn in *; now rewrite <- IH.
Qed.

(** ** The steps of [scrub_log] *)

Section Steps.
Context {E : re.Engine} {G : Type} {F : faker.Faker G} {H : Host}.

Lemma files_set_file_same path content (w : world G) :
  files (set_file path content w) path = content.
Proof. simpl. now rewrite str_eqb_refl. Qed.

Lemma files_set_file_other path content (w : world G) p :
  p <> path -> files (set_file path content w) p = files w p.
Proof.
  intros N. simpl. destruct (str_eqb_spec p path); [contradiction|reflexivity].
Qed.

Lemma files_add_log r (w : world G) :
  files (run (logging r) w) = files w.
Proof. reflexivity. Qed.

(** Lines 63-65 change the log only. *)
Lemma determine_encoding_frame self (w : world G) :
  files (snd (determine_encoding self w)) = files w
  /\ fake (snd (determine_encoding self w)) = fake w.
Proof.
  unfold determine_encoding, _detect_encoding, read_bytes, bind, logging, ret.
  destruct (encoding self) as [[|c e]|];
    try (now split);
    destruct (os_refuses (open_for_reading (input_file self)));
    try (now split);
    destruct (files w (input_file self)); now split.
Qed.

(** With an input file that can be read, lines 63-65 give the
    encoding of the run and log what line 65 logs. *)
Lemma determine_encoding_reads self (w : world G) content :
  files w (input_file self) = Some content ->
  os_refuses (open_for_reading (input_file self)) = None ->
  exists w1,
    determine_encoding self w = (Ok (encoding_used self content), w1)
    /\ files w1 = files w /\ fake w1 = fake w
    /\ log w1 = log w ++ encoding_records self content.
Proof.
  intros Hf Hr.
  unfold determine_encoding, _detect_encoding, read_bytes, bind, logging, ret,
    encoding_used, encoding_records.
  destruct (encoding self) as [[|c e]|]; rewrite ?Hr, ?Hf;
    eexists; (split; [reflexivity|]); cbn [files fake log];
    rewrite ?app_nil_r; now repeat split.
Qed.

Lemma read_lines_frame path enc (w : world G) :
  snd (read_lines path enc w) = w.
Proof.
  unfold read_lines, read_bytes, bind, lift, ret.
  destruct (os_refuses (open_for_reading path)); [reflexivity|].
  destruct (files w path); [|reflexivity].
  now destruct (text_codec enc).
Qed.

Lemma open_w_frame path enc (w : world G) :
  fake (snd (open_w path enc w)) = fake w
  /\ (forall p, p <> path -> files (snd (open_w path enc w)) p = files w p)
  /\ (forall outfile, fst (open_w path enc w) = Ok outfile ->
                      io.name outfile = path).
Proof.
  unfold open_w. destruct (os_refuses (open_for_writing path)).
  - repeat split. discriminate.
  - destruct (text_codec enc); cbn [fst snd]; repeat split;
      try (intros p N; now apply files_set_file_other).
    + now intros outfile [= <-].
    + discriminate.
Qed.

(** One turn of the loop of lines 71-73. *)
Lemma for_line_cons self line lines outfile (w : world G) :
  for_line self (line :: lines) outfile w
  = match _scrub_line self line w with
    | (Ok s, w1) =>
      for_line self lines
        {| io.name := io.name outfile; io.codec := io.codec outfile;
           io.written := io.written outfile ++ s |}
        (set_file (io.name outfile)
           (Some (codecs.encode (io.codec outfile)
                    (io.write_newlines os_linesep (io.written outfile ++ s))))
           w1)
    | (Raise e, w1) => (Raise e, w1)
    end.
Proof.
  cbn [for_line]. unfold bind at 1.
  now destruct (_scrub_line self line w) as [[s|e] w1].
Qed.

(** The loop over the lines writes to the output file only; it stops
    at the first line for which [_scrub_line] raises, and the file then
    holds the results for the lines before it. *)
Lemma for_line_prefix self : forall lines outfile (w : world G),
  exists r w' outs,
    for_line self lines outfile w = (r, w')
    /\ (forall p, p <> io.name outfile -> files w' p = files w p)
    /\ files w' (io.name outfile)
       = match outs with
         | [] => files w (io.name outfile)
         | _ => Some (codecs.encode (io.codec outfile)
                        (io.write_newlines os_linesep
                           (io.written outfile ++ List.concat outs)))
         end
    /\ match r with
       | Ok _ => Forall2 (derives self) lines outs
       | Raise e =>
         e <> re_error
         /\ List.length outs < List.length lines
         /\ Forall2 (derives self) (firstn (List.length outs) lines) outs
       end.
Proof.
  induction lines as [|line lines IH]; intros outfile w.
  - exists (Ok tt), w, []. repeat split. constructor.
  - rewrite for_line_cons.
    destruct (_scrub_line self line w) as [[s|e] w1] eqn:R;
      destruct (for_pattern_effects _ _ _ _ _ _ _ R) as (Fi & N & _).
    + match goal with |- context [for_line self lines ?o ?w2] =>
        destruct (IH o w2) as (r & w' & outs & R' & Fo & Fn & K) end.
      cbn [io.name io.codec io.written] in Fo, Fn.
      exists r, w', (s :: outs). split; [exact R'|]. split; [|split].
      * intros p Hp. rewrite (Fo p Hp), files_set_file_other by exact Hp.
        now rewrite Fi.
      * rewrite Fn. destruct outs as [|o outs].
        -- rewrite files_set_file_same. cbn [List.concat].
           now rewrite app_nil_r.
        -- cbn [List.concat]. now rewrite <- app_assoc.
      * destruct r as [u|e].
        -- constructor; [now exists w, w1 | exact K].
        -- destruct K as (Ne & Hl & D). cbn [List.length firstn].
           repeat split; [exact Ne | lia|].
           constructor; [now exists w, w1 | exact D].
    + exists (Raise e), w1, []. split; [reflexivity|]. split; [|split].
      * intros p _. now rewrite Fi.
      * now rewrite Fi.
      * cbn [List.length firstn]. repeat split; [congruence | lia | constructor].
Qed.

(** The loop changes neither the path nor the codec of [outfile]; its
    effect on the log and on the generator is that of the calls of
    [_scrub_line]. *)
Lemma for_line_fixed self :
  not_synthetic self ->
  forall lines outfile (w : world G),
    fake (snd (for_line self lines outfile w)) = fake w.
Proof.
  intros Hn. induction lines as [|line lines IH]; intros outfile w;
    [reflexivity|].
  rewrite for_line_cons.
  pose proof (proj2 (for_pattern_fixed_world self line Hn (patterns self)
                       line w w)) as K.
  fold (_scrub_line self line w) in K.
  destruct (_scrub_line self line w) as [[s|e] w1]; simpl in K; [|exact K].
  now rewrite IH.
Qed.

Lemma os_replace_frame src dst (w : world G) :
  fake (snd (os_replace src dst w)) = fake w
  /\ log (snd (os_replace src dst w)) = log w
  /\ (forall p, p <> src -> p <> dst ->
                files (snd (os_replace src dst w)) p = files w p).
Proof.
  unfold os_replace. destruct (os_refuses (replace src dst)); [now repeat split|].
  destruct (files w src); [|now repeat split].
  destruct (str_eqb src dst); cbn [snd]; repeat split.
  intros p N1 N2. now rewrite !files_set_file_other.
Qed.

Lemma replace_inplace_frame self (w : world G) :
  fst (replace_inplace self w) = Ok tt
  /\ fake (snd (replace_inplace self w)) = fake w
  /\ (forall p, p <> output_file self -> p <> input_file self ->
                files (snd (replace_inplace self w)) p = files w p).
Proof.
  unfold replace_inplace.
  destruct (os_replace_frame (output_file self) (input_file self) w)
    as (Fk & _ & Fi).
  destruct (os_replace (output_file self) (input_file self) w) as [[u|e] w'];
    cbn [fst snd logging fake files] in *; now repeat split.
Qed.

(** The end of the [try] statement: lines 75-80. *)
Lemma completed_run self (w3 : world G) c :
  files w3 (output_file self) = Some c ->
  let w' := if inplace self then run (replace_inplace self) w3 else w3 in
  files w' (result_file self) = Some c
  /\ log w' = log w3 ++ inplace_records self
  /\ fake w' = fake w3.
Proof.
  intros Hc. unfold result_file, inplace_records.
  destruct (inplace self); cbv zeta; [|now rewrite app_nil_r].
  unfold run, replace_inplace, os_replace.
  destruct (os_refuses (replace (output_file self) (input_file self)));
    [now repeat split|].
  rewrite Hc.
  destruct (str_eqb_spec (output_file self) (input_file self)) as [Heq|Hne];
    cbn [snd logging fake log files set_file].
  - rewrite <- Heq. now repeat split.
  - rewrite str_eqb_refl.
    destruct (str_eqb_spec (input_file self) (output_file self));
      [congruence | now repeat split].
Qed.

(** What [scrub_log] does once it has opened its two files: the loop
    starts in a world [w1] that differs from [w] at most by the record
    of line 65, with an output file that is empty. *)
Lemma scrub_log_runs self (w : world G) content codec :
  opens self w content codec ->
  exists w1,
    files w1 = files w /\ fake w1 = fake w
    /\ log w1 = log w ++ encoding_records self content
    /\ scrub_log self w
       = match for_line self (input_lines codec content)
                 {| io.name := output_file self; io.codec := codec;
                    io.written := [] |}
                 (set_file (output_file self) (Some []) w1) with
         | (Ok _, w3) =>
           if inplace self then run (replace_inplace self) w3 else w3
         | (Raise e, w3) => run (logging (handled self e)) w3
         end.
Proof.
  intros (Hi & Ho & Hp & Hf & Hr & Hc & Hw). unfold scrub_log.
  destruct (input_file self) as [|ci pi] eqn:Ei; [congruence|].
  destruct (output_file self) as [|co po] eqn:Eo; [congruence|].
  destruct (patterns self) as [|p0 ps] eqn:Ep; [congruence|].
  cbn [falsy orb]. unfold os_path_exists. rewrite Hf. cbn [negb].
  rewrite <- Ei, <- Eo in *.
  destruct (determine_encoding_reads self w content Hf Hr)
    as (w1 & R1 & F1 & K1 & L1).
  exists w1. repeat split; try assumption.
  unfold try_scrub. unfold bind at 1. rewrite R1.
  unfold bind at 1, read_lines, read_bytes. unfold bind at 1.
  rewrite Hr, F1, Hf. unfold bind at 1, lift, text_codec. rewrite Hc.
  unfold ret at 1. unfold bind at 1, open_w, text_codec. rewrite Hw, Hc.
  unfold bind, input_lines.
  match goal with |- context [for_line self ?l ?o ?w2] =>
    destruct (for_line self l o w2) as [[u|e] w3] end; [|reflexivity].
  destruct (inplace self); [|reflexivity].
  destruct (replace_inplace_frame self w3) as (K & _).
  unfold run. destruct (replace_inplace self w3) as [r w4].
  simpl in K. now subst r.
Qed.

(** On every path, the [try] statement changes no file but the input
    file and the output file, and the input file only when the output
    is moved onto it. *)
Lemma try_scrub_files self (w : world G) p :
  p <> output_file self ->
  p <> input_file self \/ inplace self = false ->
  files (snd (try_scrub self w)) p = files w p.
Proof.
  intros No Ni. unfold try_scrub.
  destruct (determine_encoding_frame self w) as (F1 & _).
  unfold bind at 1.
  destruct (determine_encoding self w) as [[enc|e] w1]; cbn [snd] in *;
    [|now rewrite F1].
  unfold bind at 1.
  pose proof (read_lines_frame (input_file self) enc w1) as F2.
  destruct (read_lines (input_file self) enc w1) as [[lines|e] w2];
    cbn [snd] in *; subst w2; [|now rewrite F1].
  unfold bind at 1.
  destruct (open_w_frame (output_file self) enc w1) as (_ & F3 & N3).
  destruct (open_w (output_file self) enc w1) as [[outfile|e] w3];
    cbn [fst snd] in *; [|now rewrite (F3 _ No), F1].
  specialize (N3 _ eq_refl).
  destruct (for_line_prefix self lines outfile w3)
    as (r & w4 & outs & R & F4 & _).
  unfold bind. rewrite R.
  assert (K : files w4 p = files w p).
  { rewrite F4 by (now rewrite N3). now rewrite (F3 _ No), F1. }
  destruct r as [u|e]; [|exact K].
  destruct (inplace self) eqn:Hin; [|exact K].
  destruct Ni as [Ni|Ni]; [|discriminate].
  destruct (replace_inplace_frame self w4) as (_ & _ & F5).
  now rewrite (F5 _ No Ni).
Qed.

Lemma try_scrub_fixed self (w : world G) :
  not_synthetic self -> fake (snd (try_scrub self w)) = fake w.
Proof.
  intros Hn. unfold try_scrub.
  destruct (determine_encoding_frame self w) as (_ & F1).
  unfold bind at 1.
  destruct (determine_encoding self w) as [[enc|e] w1]; cbn [snd] in *;
    [|exact F1].
  unfold bind at 1.
  pose proof (read_lines_frame (input_file self) enc w1) as F2.
  destruct (read_lines (input_file self) enc w1) as [[lines|e] w2];
    cbn [snd] in *; subst w2; [|exact F1].
  unfold bind at 1.
  destruct (open_w_frame (output_file self) enc w1) as (F3 & _ & _).
  destruct (open_w (output_file self) enc w1) as [[outfile|e] w3];
    cbn [fst snd] in *; [|congruence].
  pose proof (for_line_fixed self Hn lines outfile w3) as F4.
  unfold bind.
  destruct (for_line self lines outfile w3) as [[u|e] w4]; cbn [snd] in *;
    [|congruence].
  destruct (inplace self); [|cbn; congruence].
  destruct (replace_inplace_frame self w4) as (_ & F5 & _). congruence.
Qed.

End Steps.

(** ** [scrub_log]: the output file *)

Section Files.
Context {E : re.Engine} {G : Type} {F : faker.Faker G} {H : Host}.

(** With tame patterns and a tame policy the loop over the lines
    completes. *)
Lemma for_line_tame self :
  policy_tame self -> Forall pattern_tame (patterns self) ->
  forall lines outfile (w : world G),
    fst (for_line self lines outfile w) = Ok tt.
Proof.
  intros Hp Hc. induction lines as [|line lines IH]; intros outfile w;
    [reflexivity|].
  rewrite for_line_cons.
  destruct (scrub_line_returns self line w Hp Hc) as (s & w1 & R & _).
  rewrite R. apply IH.
Qed.

(** The output file once the loop has completed. *)
Lemma for_line_completes self lines codec (w2 : world G) :
  files w2 (output_file self) = Some [] ->
  fst (for_line self lines
         {| io.name := output_file self; io.codec := codec; io.written := [] |}
         w2) = Ok tt ->
  exists w3 outs,
    for_line self lines
      {| io.name := output_file self; io.codec := codec; io.written := [] |}
      w2 = (Ok tt, w3)
    /\ Forall2 (derives self) lines outs
    /\ files w3 (output_file self) = Some (output_of codec outs).
Proof.
  intros Hf Hr.
  destruct (for_line_prefix self lines
              {| io.name := output_file self; io.codec := codec;
                 io.written := [] |} w2)
    as (r & w3 & outs & R & _ & Fn & K).
  rewrite R in Hr. cbn [fst] in Hr. subst r.
  exists w3, outs. repeat split; [exact R | exact K|].
  cbn [io.name io.codec io.written app] in Fn. rewrite Fn.
  unfold output_of. now destruct outs.
Qed.

(** C3, as amended.  When [scrub_log] passes its checks and opens both
    of its files, and no pattern and no replacement raises anything but
    [re.error], it writes exactly one string for each line that
    [readlines] returns for the input file, in order, the [i]-th being
    the result of [_scrub_line] on the [i]-th line; the result file
    holds these strings, encoded, and nothing else. *)
Theorem one_output_line_per_input_line self (w : world G) content codec :
  opens self w content codec ->
  policy_tame self -> Forall pattern_tame (patterns self) ->
  exists outs,
    Forall2 (derives self) (input_lines codec content) outs
    /\ List.length outs = List.length (input_lines codec content)
    /\ files (scrub_log self w) (result_file self)
       = Some (output_of codec outs).
Proof.
  intros Ho Hp Hc.
  destruct (scrub_log_runs self w content codec Ho) as (w1 & _ & _ & _ & ->).
  destruct (for_line_completes self (input_lines codec content) codec
              (set_file (output_file self) (Some []) w1))
    as (w3 & outs & R & D & Fo).
  { apply files_set_file_same. }
  { now apply for_line_tame. }
  rewrite R. exists outs.
  split; [exact D|]. split; [symmetry; now apply (Forall2_length D)|].
  now apply completed_run.
Qed.

(** C7, as amended.  With an empty list of rules [_scrub_line] returns
    the line unchanged; [scrub_log] logs an error and writes nothing. *)
Theorem empty_rules self line (w : world G) :
  patterns self = [] ->
  _scrub_line self line w = (Ok line, w)
  /\ scrub_log self w = add_log ERROR_missing_arguments w.
Proof.
  intros K. unfold _scrub_line, scrub_log. rewrite K. split; [reflexivity|].
  now rewrite !orb_true_r.
Qed.

End Files.

(** C3 fails as stated.  Nothing is written for the two lines of the
    input when the list of rules is empty, when the encoding is one
    that Python does not know, and when the output file cannot be
    opened; when a substitution raises an exception other than
    [re.error], the run stops with an empty output file.  And where
    one string is written for each line, the strings need not be
    lines: with the rule [\n] under deletion each line loses its line
    feed, and the two lines of the input make one line of output. *)
Lemma output_lines_missing :
  let w := input_log [py "one"; py "two"] in
  let content := example.bytes_of (example.unlines [py "one"; py "two"]) in
  let bogus := {| input_file := py "input.log"; output_file := py "output.log";
                  patterns := [py "o"]; replace_with := None;
                  inplace := false; encoding := Some (py "bogus") |} in
  let nodir := {| input_file := py "input.log";
                  output_file := py "nodir/output.log";
                  patterns := [py "o"]; replace_with := None;
                  inplace := false; encoding := Some (py "ascii") |} in
  (files (scrub_log (scrubber [] None) w) (py "output.log") = None
   /\ log (scrub_log (scrubber [] None) w) = [ERROR_missing_arguments])
  /\ (files (scrub_log bogus w) (py "output.log") = None
      /\ log (scrub_log bogus w) = [ERROR_occurred LookupError])
  /\ (files (@scrub_log sre_engine nat counting.generator
                        example.no_directory nodir w)
            (py "nodir/output.log") = None
      /\ log (@scrub_log sre_engine nat counting.generator
                         example.no_directory nodir w)
         = [ERROR_file_not_found (py "input.log")])
  /\ (files (scrub_log (scrubber [py "o"] (Some (py "\g<x>"))) w)
            (py "output.log") = Some []
      /\ log (scrub_log (scrubber [py "o"] (Some (py "\g<x>"))) w)
         = [ERROR_occurred IndexError])
  /\ (List.length (input_lines example.ascii_codec content) = 2
      /\ files (scrub_log (scrubber [py "\n"] None) w) (py "output.log")
         = Some (example.bytes_of (py "onetwo"))
      /\ List.length (input_lines example.ascii_codec
                        (example.bytes_of (py "onetwo"))) = 1).
Proof. vm_compute. repeat split. Qed.

Lemma one_output_line_per_input_line_witness :
  let self := scrubber [py "\d"; py "("] None in
  let content := example.bytes_of (example.unlines [py "a1"; py "b2"]) in
  exists outs,
    Forall2 (derives self) (input_lines example.ascii_codec content) outs
    /\ List.length outs
       = List.length (input_lines example.ascii_codec content)
    /\ files (scrub_log self (input_log [py "a1"; py "b2"])) (py "output.log")
       = Some (output_of example.ascii_codec outs).
Proof.
  apply (@one_output_line_per_input_line sre_engine nat counting.generator
           example.willing (scrubber [py "\d"; py "("] None)
           (input_log [py "a1"; py "b2"])
           (example.bytes_of (example.unlines [py "a1"; py "b2"]))
           example.ascii_codec).
  - repeat split; discriminate.
  - exact I.
  - repeat constructor; intros e K; vm_compute in K; congruence.
Defined.

(** C7 fails as stated: with an empty list of rules [scrub_log] leaves
    no output file, let alone one whose lines are those of the
    input. *)
Lemma empty_rules_write_nothing :
  let w := input_log [py "first line"; py "second line"] in
  let self := scrubber [] (Some (py "REDACTED")) in
  files (scrub_log self w) (output_file self) = None
  /\ files (scrub_log self w) (input_file self)
     = Some (example.bytes_of
               (example.unlines [py "first line"; py "second line"]))
  /\ log (scrub_log self w) = [ERROR_missing_arguments].
Proof. repeat split. Qed.

Lemma empty_rules_witness :
  _scrub_line (scrubber [] None) (py "kept as it is") counting.world0
  = (Ok (py "kept as it is"), counting.world0)
  /\ scrub_log (scrubber [] None) counting.world0
     = add_log ERROR_missing_arguments counting.world0.
Proof.
  apply (@empty_rules sre_engine nat counting.generator example.willing).
  reflexivity.
Defined.

(** A run on a file with a Windows line ending and a byte that is not
    ASCII, read as [ascii]: the rules are disabled by the invalid one,
    and yet the output is not the input byte for byte, for the line
    ending is written as a line feed and the byte is left out. *)
Example line_endings_and_invalid_bytes :
  let content := example.bytes_of (py "a1" ++ [CR; LF] ++ py "b" ++ [chr 255]
                                   ++ py "2" ++ [LF]) in
  let w := set_file (py "input.log") (Some content) counting.world0 in
  input_lines example.ascii_codec content
  = [py "a1" ++ [LF]; py "b2" ++ [LF]]
  /\ files (scrub_log (scrubber [py "\d"; py "("] None) w) (py "output.log")
     = Some (example.bytes_of (py "a1" ++ [LF] ++ py "b2" ++ [LF])).
Proof. vm_compute. split; reflexivity. Qed.

(** * Further properties of the program *)

(** ** [_scrub_line] *)

Section ScrubLine.
Context {E : re.Engine} {G : Type} {F : faker.Faker G}.

Lemma substitute_with_patterns self ps pattern s :
  substitute (with_patterns self ps) pattern s = substitute self pattern s.
Proof. reflexivity. Qed.

Lemma for_pattern_with_patterns self ps line rest : forall s (w : world G),
  for_pattern (with_patterns self ps) line rest s w
  = for_pattern self line rest s w.
Proof.
  induction rest as [|p rest IH]; intros s w; [reflexivity|].
  cbn [for_pattern]. rewrite substitute_with_patterns.
  destruct (substitute self p s w) as [[s'|e] w']; [apply IH|reflexivity].
Qed.

(** X1.  Whatever the rules, the policy and the outcome, [_scrub_line]
    changes no file and never raises [re.error]; it logs nothing, or
    exactly one ERROR record naming one of the rules, and in that case
    it returns the original line. *)
Theorem scrub_line_effects self line (w : world G) r w' :
  _scrub_line self line w = (r, w') ->
  files w' = files w
  /\ r <> Raise re_error
  /\ (log w' = log w
      \/ exists q, In q (patterns self) /\ r = Ok line
                   /\ log w' = log w ++ [ERROR_invalid_regex q]).
Proof. apply for_pattern_effects. Qed.

Lemma for_pattern_fixed_fold self line :
  not_synthetic self -> re.has_backslash (fixed_text self) = false ->
  forall rest ps s (w : world G), compiled rest ps ->
  for_pattern self line rest s w
  = (Ok (replace_all ps (fixed_text self) s), w).
Proof.
  intros Hn Hb. induction rest as [|rule rest IH]; intros ps s w Hc.
  - inversion Hc; subst. reflexivity.
  - inversion Hc as [|? p ? ps' Hp Hrest]; subst.
    cbn [for_pattern]. rewrite (substitute_fixed _ _ _ _ Hn).
    rewrite (sub_plain _ _ _ _ Hp Hb), (IH ps' _ w Hrest). reflexivity.
Qed.

(** X2.  Under deletion or a literal replacement without backslash,
    when every rule's pattern compiles, [_scrub_line] is the
    left-to-right composition of the rules: each replaces its matches
    in the result of the one before; nothing is logged and the world is
    left as it was. *)
Theorem fixed_text_composes_rules self ps line (w : world G) :
  not_synthetic self ->
  re.has_backslash (fixed_text self) = false ->
  compiled (patterns self) ps ->
  _scrub_line self line w
  = (Ok (replace_all ps (fixed_text self) line), w).
Proof. intros Hn Hb Hc. now apply for_pattern_fixed_fold. Qed.

Lemma subseq_refl (a : str) : subseq a a.
Proof. induction a; now constructor. Qed.

Lemma subseq_nil_l (a : str) : subseq [] a.
Proof. induction a; now constructor. Qed.

Lemma subseq_app (a b c d : str) :
  subseq a b -> subseq c d -> subseq (a ++ c) (b ++ d).
Proof. intros H. induction H; intros K; simpl; auto; now constructor; auto. Qed.

Lemma subseq_trans (a b c : str) : subseq a b -> subseq b c -> subseq a c.
Proof.
  intros H K. revert a H.
  induction K as [|x b c K IH|x b c K IH]; intros a H.
  - exact H.
  - inversion H; subst; constructor; now apply IH.
  - constructor. now apply IH.
Qed.

Lemma subseq_length (a b : str) :
  subseq a b -> List.length a <= List.length b.
Proof. induction 1; simpl; lia. Qed.

Lemma delete_is_subseq (sc : re.Scan) :
  subseq (replace_each sc []) (re.unscan sc).
Proof.
  unfold replace_each, re.unscan. apply subseq_app; [|apply subseq_refl].
  induction (fst sc) as [|gm l IH]; simpl; [constructor|].
  apply subseq_app; [|exact IH].
  apply subseq_app; [apply subseq_refl | apply subseq_nil_l].
Qed.

Lemma for_pattern_delete self line :
  is_delete self ->
  forall rest s (w : world G), Forall pattern_tame rest -> subseq s line ->
  exists out w', for_pattern self line rest s w = (Ok out, w')
                 /\ subseq out line.
Proof.
  intros Hd. assert (Hn : not_synthetic self).
  { unfold not_synthetic. now rewrite Hd. }
  induction rest as [|rule rest IH]; intros s w Ht Hs.
  - now exists s, w.
  - inversion Ht as [|? ? Hr Hrest]; subst.
    cbn [for_pattern]. rewrite (substitute_fixed _ _ _ _ Hn).
    unfold fixed_text. rewrite Hd.
    destruct (re.compile rule) as [p|e] eqn:Hc.
    + rewrite (sub_plain _ _ [] _ Hc eq_refl).
      apply IH; [exact Hrest|].
      apply subseq_trans with s; [|exact Hs].
      rewrite <- (re.scan_covers p s) at 2. apply delete_is_subseq.
    + rewrite (sub_raise _ _ _ _ Hc). rewrite (Hr e Hc).
      eexists _, _. split; [reflexivity | apply subseq_refl].
Qed.

(** X3.  Deletion only removes characters: when no pattern raises
    anything but [re.error], [_scrub_line] under the deletion policy
    returns the line with some characters left out, in their order,
    and so never a longer line. *)
Theorem delete_only_removes self line (w : world G) :
  is_delete self ->
  Forall pattern_tame (patterns self) ->
  exists out w', _scrub_line self line w = (Ok out, w')
                 /\ subseq out line
                 /\ List.length out <= List.length line.
Proof.
  intros Hd Ht.
  destruct (for_pattern_delete self line Hd (patterns self) line w Ht
              (subseq_refl line)) as (out & w' & R & S).
  exists out, w'. repeat split; [exact R | exact S | now apply subseq_length].
Qed.

Lemma for_pattern_after_invalid self line bad rest1 rest2 :
  invalid bad ->
  forall pre s (w : world G),
  for_pattern self line (pre ++ bad :: rest1) s w
  = for_pattern self line (pre ++ bad :: rest2) s w.
Proof.
  intros Hb. induction pre as [|p pre IH]; intros s w.
  - cbn [app for_pattern].
    pose proof (substitute_invalid self bad s w Hb) as K.
    destruct (substitute self bad s w) as [r w1]. simpl in K. now subst.
  - cbn [app for_pattern].
    destruct (substitute self p s w) as [[s'|e] w1]; [apply IH | reflexivity].
Qed.

(** X4.  The rules listed after a rule whose pattern is invalid are
    never applied nor compiled: replacing them with any others changes
    neither the result nor the log nor the generator. *)
Theorem rules_after_invalid_are_ignored self pre bad rest1 rest2 line
    (w : world G) :
  invalid bad ->
  _scrub_line (with_patterns self (pre ++ bad :: rest1)) line w
  = _scrub_line (with_patterns self (pre ++ bad :: rest2)) line w.
Proof.
  intros Hb. unfold _scrub_line. cbn [patterns with_patterns].
  rewrite !for_pattern_with_patterns. now apply for_pattern_after_invalid.
Qed.

Lemma for_pattern_synthetic_invalid self method line bad rest :
  is_synthetic self method ->
  (forall g, re.has_backslash (fst (method g)) = false) ->
  invalid bad ->
  forall pre s (w : world G), Forall valid pre ->
  exists w', for_pattern self line (pre ++ bad :: rest) s w = (Ok line, w')
             /\ fake w' = requests method (S (List.length pre)) (fake w)
             /\ log w' = log w ++ [ERROR_invalid_regex bad].
Proof.
  intros Hs Hb Hi. induction pre as [|p pre IH]; intros s w Hv.
  - cbn [app for_pattern]. rewrite (substitute_synthetic _ _ _ _ _ Hs).
    rewrite (sub_raise _ _ _ _ Hi). eexists. repeat split.
  - inversion Hv as [|? ? [c Hc] Hrest]; subst.
    cbn [app for_pattern]. rewrite (substitute_synthetic _ _ _ _ _ Hs).
    rewrite (sub_plain _ _ _ _ Hc (Hb _)).
    destruct (IH (replace_each (re.scan c s) (fst (method (fake w))))
                 (set_fake (snd (method (fake w))) w) Hrest)
      as (w' & R & Fk & L).
    exists w'. repeat split; [exact R | | exact L].
    rewrite Fk. unfold requests. cbn [List.length fake set_fake].
    symmetry. apply Nat.iter_succ_r.
Qed.

(** X5.  Under a synthetic policy a scrub that fails still consumes
    generated values: when [k] valid rules precede a rule whose
    pattern is invalid, [_scrub_line] returns the original line, logs
    the invalid rule, and leaves the generator [k + 1] requests
    further. *)
Theorem failed_scrub_consumes_values self method pre bad rest line
    (w : world G) :
  is_synthetic self method ->
  (forall g, re.has_backslash (fst (method g)) = false) ->
  Forall valid pre -> invalid bad ->
  patterns self = pre ++ bad :: rest ->
  exists w', _scrub_line self line w = (Ok line, w')
             /\ fake w' = requests method (S (List.length pre)) (fake w)
             /\ log w' = log w ++ [ERROR_invalid_regex bad].
Proof.
  intros Hs Hb Hv Hi Hp. unfold _scrub_line. rewrite Hp.
  now apply for_pattern_synthetic_invalid.
Qed.

End ScrubLine.

(** ** [scrub_log] *)

Section ScrubLog.
Context {E : re.Engine} {G : Type} {F : faker.Faker G} {H : Host}.

(** X6.  Once both files are open, whatever happens during the run,
    the output holds the results for an initial part of the input, one
    string for each line and in order.  Either the run completes and
    the result file holds a result for every line, or a substitution
    raises an exception other than [re.error]: then the output file
    holds the results for the lines before the failing one only, the
    exception is logged by the handlers of lines 81-84, no in-place
    replacement takes place, and an input file that is not the output
    file is left as it was. *)
Theorem scrub_log_writes_a_prefix self (w : world G) content codec :
  opens self w content codec ->
  (exists outs,
      Forall2 (derives self) (input_lines codec content) outs
      /\ files (scrub_log self w) (result_file self)
         = Some (output_of codec outs))
  \/ (exists e outs,
         e <> re_error
         /\ List.length outs < List.length (input_lines codec content)
         /\ Forall2 (derives self)
                    (firstn (List.length outs) (input_lines codec content))
                    outs
         /\ files (scrub_log self w) (output_file self)
            = Some (output_of codec outs)
         /\ (exists l, log (scrub_log self w) = l ++ [handled self e])
         /\ (input_file self <> output_file self ->
             files (scrub_log self w) (input_file self) = Some content)).
Proof.
  intros Ho.
  destruct (scrub_log_runs self w content codec Ho) as (w1 & F1 & _ & _ & ->).
  destruct Ho as (_ & _ & _ & Hf & _).
  destruct (for_line_prefix self (input_lines codec content)
              {| io.name := output_file self; io.codec := codec;
                 io.written := [] |}
              (set_file (output_file self) (Some []) w1))
    as (r & w3 & outs & -> & Fr & Fn & K).
  cbn [io.name io.codec io.written app] in Fr, Fn.
  rewrite files_set_file_same in Fn.
  assert (Fo : files w3 (output_file self) = Some (output_of codec outs)).
  { rewrite Fn. unfold output_of. now destruct outs. }
  destruct r as [u|e].
  - left. exists outs. split; [exact K|]. now apply completed_run.
  - right. destruct K as (N & Hl & D).
    exists e, outs. repeat split; try assumption.
    + now exists (log w3).
    + intros Hne. rewrite files_add_log, (Fr _ Hne).
      rewrite files_set_file_other by exact Hne. now rewrite F1.
Qed.

(** X7.  [scrub_log] touches no file but its input file and its output
    file, on any path through it. *)
Theorem scrub_log_touches_two_files self (w : world G) path :
  path <> input_file self -> path <> output_file self ->
  files (scrub_log self w) path = files w path.
Proof.
  intros Ni No. unfold scrub_log.
  destruct (falsy (input_file self) || falsy (output_file self)
            || match patterns self with [] => true | _ => false end);
    [reflexivity|].
  destruct (negb (os_path_exists (input_file self) w)); [reflexivity|].
  pose proof (try_scrub_files self w path No (or_introl Ni)) as K.
  destruct (try_scrub self w) as [[u|e] w']; exact K.
Qed.

(** X8.  Unless the run is in place, an input file that is not the
    output file is left as it was, on any path through [scrub_log]. *)
Theorem input_kept_unless_inplace self (w : world G) :
  inplace self = false ->
  input_file self <> output_file self ->
  files (scrub_log self w) (input_file self) = files w (input_file self).
Proof.
  intros Hin Hne. unfold scrub_log.
  destruct (falsy (input_file self) || falsy (output_file self)
            || match patterns self with [] => true | _ => false end);
    [reflexivity|].
  destruct (negb (os_path_exists (input_file self) w)); [reflexivity|].
  pose proof (try_scrub_files self w (input_file self) Hne (or_intror Hin))
    as K.
  destruct (try_scrub self w) as [[u|e] w']; exact K.
Qed.

Lemma scrub_line_invalid_log self line (w : world G) :
  policy_tame self -> Forall pattern_tame (patterns self) ->
  (exists p, In p (patterns self) /\ invalid p) ->
  exists q w', _scrub_line self line w = (Ok line, w')
               /\ files w' = files w
               /\ log w' = log w ++ [ERROR_invalid_regex q].
Proof.
  intros Hp Hc Hi.
  destruct (for_pattern_invalid self line (patterns self) line w Hi)
    as [(q & w' & _ & R & L & Fi) | (e & w' & N & R)].
  - now exists q, w'.
  - destruct (scrub_line_returns self line w Hp Hc) as (s & w2 & R2 & _).
    unfold _scrub_line in R2. congruence.
Qed.

(** When [_scrub_line] computes the function [f] of the line in every
    world, the strings written are the values of [f]. *)
Lemma derives_function self (f : str -> str) :
  (forall line (w : world G) out w',
      _scrub_line self line w = (Ok out, w') -> out = f line) ->
  forall lines outs, Forall2 (derives self) lines outs -> outs = map f lines.
Proof.
  intros Hf lines outs D. induction D as [|line out lines outs D1 D IH];
    [reflexivity|].
  destruct D1 as (w1 & w2 & R). cbn [map].
  now rewrite (Hf _ _ _ _ R), IH.
Qed.

(** A run that completes and whose lines are scrubbed by the function
    [f]. *)
Lemma scrub_log_maps self (f : str -> str) (w : world G) content codec :
  opens self w content codec ->
  (forall line (w0 : world G), exists w',
      _scrub_line self line w0 = (Ok (f line), w')) ->
  files (scrub_log self w) (result_file self)
  = Some (output_of codec (map f (input_lines codec content))).
Proof.
  intros Ho Hf.
  destruct (scrub_log_runs self w content codec Ho) as (w1 & _ & _ & _ & ->).
  destruct (for_line_completes self (input_lines codec content) codec
              (set_file (output_file self) (Some []) w1))
    as (w3 & outs & R & D & Fo).
  { apply files_set_file_same. }
  { generalize (set_file (output_file self) (Some []) w1).
    generalize {| io.name := output_file self; io.codec := codec;
                  io.written := [] |}.
    induction (input_lines codec content) as [|line lines IH];
      intros outfile w2; [reflexivity|].
    rewrite for_line_cons. destruct (Hf line w2) as (w' & ->). apply IH. }
  rewrite R.
  assert (Hd : forall line (w0 : world G) out w',
             _scrub_line self line w0 = (Ok out, w') -> out = f line).
  { intros line w0 out w' R0. destruct (Hf line w0) as (w'' & R1). congruence. }
  rewrite (derives_function self f Hd _ _ D) in Fo.
  now apply completed_run.
Qed.

(** X9.  One invalid rule disables the whole run: when some rule's
    pattern is invalid (and nothing but [re.error] is raised), every
    line is written as it was read, whatever the other rules and the
    policy.  The result file holds the text of the input as
    [readlines] returned it, that is without the bytes that are not
    valid in the encoding and with every line ending read as a line
    feed, written back in the same encoding. *)
Theorem invalid_rule_copies_the_input self (w : world G) content codec :
  opens self w content codec ->
  policy_tame self -> Forall pattern_tame (patterns self) ->
  (exists p, In p (patterns self) /\ invalid p) ->
  files (scrub_log self w) (result_file self)
  = Some (output_of codec (input_lines codec content))
  /\ List.concat (input_lines codec content)
     = io.universal_newlines (codecs.decode codec content).
Proof.
  intros Ho Hp Hc Hinv. split; [|apply readlines_concat].
  rewrite <- (map_id (input_lines codec content)).
  apply (scrub_log_maps self (fun line => line)); [exact Ho|].
  intros line w0.
  destruct (scrub_line_invalid_log self line w0 Hp Hc Hinv)
    as (q & w' & R & _). now exists w'.
Qed.


(** X11.  Under deletion or a literal replacement a whole run of
    [scrub_log] leaves the generator in the state it was in, on every
    path. *)
Theorem fixed_text_run_spares_generator self (w : world G) :
  not_synthetic self -> fake (scrub_log self w) = fake w.
Proof.
  intros Hn. unfold scrub_log.
  destruct (falsy (input_file self) || falsy (output_file self)
            || match patterns self with [] => true | _ => false end);
    [reflexivity|].
  destruct (negb (os_path_exists (input_file self) w)); [reflexivity|].
  pose proof (try_scrub_fixed self w Hn) as K.
  destruct (try_scrub self w) as [[u|e] w']; exact K.
Qed.

(** X12.  Under deletion or a literal replacement the lines are
    scrubbed independently of each other: there is one function of the
    line alone that [_scrub_line] computes in every world, and the
    result file holds, encoded, its value for each line of the input,
    in order; equal lines give equal results wherever they stand in
    the file. *)
Theorem fixed_text_scrubs_linewise self (w : world G) content codec :
  opens self w content codec ->
  not_synthetic self ->
  policy_tame self -> Forall pattern_tame (patterns self) ->
  exists f : str -> str,
    (forall line (w0 : world G), fst (_scrub_line self line w0) = Ok (f line))
    /\ files (scrub_log self w) (result_file self)
       = Some (output_of codec (map f (input_lines codec content))).
Proof.
  intros Ho Hn Hp Hc.
  set (f := fun line => match fst (_scrub_line self line w) with
                        | Ok s => s
                        | Raise _ => line
                        end).
  assert (Hfun : forall line (w0 : world G), exists w',
             _scrub_line self line w0 = (Ok (f line), w')).
  { intros line w0.
    destruct (scrub_line_returns self line w0 Hp Hc) as (s & w' & R & Fi).
    exists w'. rewrite R. do 2 f_equal. unfold f.
    pose proof (proj1 (for_pattern_fixed_world self line Hn (patterns self)
                         line w w0)) as K.
    fold (_scrub_line self line w) in K. fold (_scrub_line self line w0) in K.
    rewrite K, R. reflexivity. }
  exists f. split.
  - intros line w0. destruct (Hfun line w0) as (w' & R). now rewrite R.
  - now apply scrub_log_maps.
Qed.

(** X14.  A replacement that makes [re.sub] raise an exception other
    than [re.error] stops the run at the first line, after the output
    file has been opened: the output file is left empty and the
    exception is logged by the handlers of lines 81-84.  When the
    output file is the input file, the content of the input is lost. *)
Theorem raising_replacement_empties_output self (w : world G) content codec
    line lines p rest e :
  opens self w content codec ->
  input_lines codec content = line :: lines ->
  not_synthetic self ->
  patterns self = p :: rest ->
  re.sub p (fixed_text self) line = Raise e -> e <> re_error ->
  files (scrub_log self w) (output_file self) = Some []
  /\ (exists l, log (scrub_log self w) = l ++ [handled self e])
  /\ (input_file self = output_file self ->
      files (scrub_log self w) (input_file self) = Some []).
Proof.
  intros Ho Hl Hn Hp Hs Hne.
  assert (K : files (scrub_log self w) (output_file self) = Some []
              /\ exists l, log (scrub_log self w) = l ++ [handled self e]).
  { destruct (scrub_log_runs self w content codec Ho) as (w1 & _ & _ & _ & ->).
    rewrite Hl, for_line_cons. unfold _scrub_line. rewrite Hp.
    rewrite (for_pattern_raise self line p rest line e _ _
               (eq_trans (substitute_fixed self p line _ Hn)
                         (f_equal (fun r => (r, _)) Hs)) Hne).
    split; [apply files_set_file_same | eexists; reflexivity]. }
  destruct K as [K1 K2]. repeat split; [exact K1 | exact K2|].
  intros Heq. now rewrite Heq.
Qed.

Lemma for_line_invalid_log self :
  policy_tame self -> Forall pattern_tame (patterns self) ->
  (exists p, In p (patterns self) /\ invalid p) ->
  forall lines outfile (w : world G),
    exists errs w',
      for_line self lines outfile w = (Ok tt, w')
      /\ log w' = log w ++ errs
      /\ List.length errs = List.length lines
      /\ Forall is_invalid_regex_record errs.
Proof.
  intros Hp Hc Hi. induction lines as [|line lines IH]; intros outfile w.
  - exists [], w. rewrite app_nil_r. now repeat split.
  - destruct (scrub_line_invalid_log self line w Hp Hc Hi)
      as (q & w1 & R & Fi & L).
    rewrite for_line_cons, R.
    match goal with |- context [for_line self lines ?o ?w2] =>
      destruct (IH o w2) as (errs & w' & R' & L' & Len & Fa) end.
    exists (ERROR_invalid_regex q :: errs), w'. repeat split.
    + exact R'.
    + rewrite L'. cbn [log set_file]. rewrite L, <- app_assoc. reflexivity.
    + simpl. now rewrite Len.
    + constructor; [now exists q | exact Fa].
Qed.

(** X15.  One invalid rule makes the run log an error for every line:
    when some rule's pattern is invalid (and nothing but [re.error] is
    raised), the log grows by exactly as many ERROR records of line
    115 as the input has lines, between the record of line 65 and that
    of line 78 or 80. *)
Theorem invalid_rule_logs_each_line self (w : world G) content codec :
  opens self w content codec ->
  policy_tame self -> Forall pattern_tame (patterns self) ->
  (exists p, In p (patterns self) /\ invalid p) ->
  exists errs,
    log (scrub_log self w)
    = log w ++ encoding_records self content ++ errs ++ inplace_records self
    /\ List.length errs = List.length (input_lines codec content)
    /\ Forall is_invalid_regex_record errs.
Proof.
  intros Ho Hp Hc Hinv.
  destruct (scrub_log_runs self w content codec Ho) as (w1 & _ & _ & L1 & ->).
  destruct (for_line_invalid_log self Hp Hc Hinv (input_lines codec content)
              {| io.name := output_file self; io.codec := codec;
                 io.written := [] |}
              (set_file (output_file self) (Some []) w1))
    as (errs & w3 & R & L3 & Len & Fa).
  destruct (for_line_completes self (input_lines codec content) codec
              (set_file (output_file self) (Some []) w1))
    as (w3' & outs & R' & _ & Fo).
  { apply files_set_file_same. }
  { now rewrite R. }
  rewrite R in R'. injection R' as <-. rewrite R.
  exists errs. split; [|now split].
  destruct (completed_run self w3 _ Fo) as (_ & L & _). cbv zeta in L.
  rewrite L, L3. cbn [log set_file]. rewrite L1, <- !app_assoc. reflexivity.
Qed.

Lemma for_line_fixed_log self ps :
  not_synthetic self -> re.has_backslash (fixed_text self) = false ->
  compiled (patterns self) ps ->
  forall lines outfile (w : world G),
    exists w',
      for_line self lines outfile w = (Ok tt, w') /\ log w' = log w.
Proof.
  intros Hn Hb Hc. induction lines as [|line lines IH]; intros outfile w.
  - now exists w.
  - rewrite for_line_cons. unfold _scrub_line.
    rewrite (for_pattern_fixed_fold self line Hn Hb _ ps line w Hc).
    match goal with |- context [for_line self lines ?o ?w2] =>
      destruct (IH o w2) as (w' & R & L) end.
    exists w'. split; [exact R | exact L].
Qed.

(** X16.  The run with valid rules: under deletion or a literal
    replacement without backslash, when every rule's pattern compiles,
    the result file holds, encoded, each line of the input with the
    rules applied to it in order, and no error is logged. *)
Theorem valid_rules_scrub_every_line self ps (w : world G) content codec :
  opens self w content codec ->
  not_synthetic self ->
  re.has_backslash (fixed_text self) = false ->
  compiled (patterns self) ps ->
  files (scrub_log self w) (result_file self)
  = Some (output_of codec
            (map (replace_all ps (fixed_text self))
                 (input_lines codec content)))
  /\ log (scrub_log self w)
     = log w ++ encoding_records self content ++ inplace_records self.
Proof.
  intros Ho Hn Hb Hc. split.
  - apply scrub_log_maps; [exact Ho|]. intros line w0. exists w0.
    now apply for_pattern_fixed_fold.
  - destruct (scrub_log_runs self w content codec Ho)
      as (w1 & _ & _ & L1 & ->).
    destruct (for_line_fixed_log self ps Hn Hb Hc (input_lines codec content)
                {| io.name := output_file self; io.codec := codec;
                   io.written := [] |}
                (set_file (output_file self) (Some []) w1)) as (w3 & R & L3).
    destruct (for_line_completes self (input_lines codec content) codec
                (set_file (output_file self) (Some []) w1))
      as (w3' & outs & R' & _ & Fo).
    { apply files_set_file_same. }
    { now rewrite R. }
    rewrite R in R'. injection R' as <-. rewrite R.
    destruct (completed_run self w3 _ Fo) as (_ & L & _). cbv zeta in L.
    rewrite L, L3. cbn [log set_file]. now rewrite L1, <- app_assoc.
Qed.

Lemma requests_add method (a b : nat) (g : G) :
  requests method (a + b) g = requests method b (requests method a g).
Proof.
  unfold requests. rewrite Nat.add_comm. apply Nat.iter_add.
Qed.

Lemma for_line_synthetic self method :
  is_synthetic self method ->
  (forall g, re.has_backslash (fst (method g)) = false) ->
  Forall valid (patterns self) ->
  forall lines outfile (w : world G),
    exists w',
      for_line self lines outfile w = (Ok tt, w')
      /\ fake w'
         = requests method (List.length lines * List.length (patterns self))
                    (fake w).
Proof.
  intros Hs Hb Hv. induction lines as [|line lines IH]; intros outfile w.
  - now exists w.
  - destruct (for_pattern_synthetic self method line Hs Hb
                (patterns self) line w Hv) as (out & w1 & R & Fk).
    rewrite for_line_cons. unfold _scrub_line. rewrite R.
    match goal with |- context [for_line self lines ?o ?w2] =>
      destruct (IH o w2) as (w' & R' & Fk') end.
    exists w'. split; [exact R'|].
    rewrite Fk'. cbn [fake set_file]. rewrite Fk. cbn [List.length Nat.mul].
    now rewrite requests_add.
Qed.

(** X17.  Under a synthetic policy with valid rules, a run over [n]
    lines with [k] rules leaves the generator [n * k] requests
    further: one value for each rule on each line, whether or not the
    line holds a match. *)
Theorem synthetic_run_requests self method (w : world G) content codec :
  opens self w content codec ->
  is_synthetic self method ->
  (forall g, re.has_backslash (fst (method g)) = false) ->
  Forall valid (patterns self) ->
  fake (scrub_log self w)
  = requests method
      (List.length (input_lines codec content) * List.length (patterns self))
      (fake w).
Proof.
  intros Ho Hs Hb Hv.
  destruct (scrub_log_runs self w content codec Ho) as (w1 & _ & F1 & _ & ->).
  destruct (for_line_synthetic self method Hs Hb Hv (input_lines codec content)
              {| io.name := output_file self; io.codec := codec;
                 io.written := [] |}
              (set_file (output_file self) (Some []) w1)) as (w3 & R & Fk).
  rewrite R.
  assert (K : fake (if inplace self then run (replace_inplace self) w3 else w3)
              = fake w3).
  { destruct (inplace self); [|reflexivity].
    now destruct (replace_inplace_frame self w3) as (_ & K & _). }
  rewrite K, Fk. cbn [fake set_file]. now rewrite F1.
Qed.

End ScrubLog.
(** ** [scrub_log]: runs that cannot open their files *)

Section Refusals.
Context {E : re.Engine} {G : Type} {F : faker.Faker G} {H : Host}.

(** [scrub_log] past the checks of lines 53-59. *)
Lemma scrub_log_tries self (w : world G) content :
  input_file self <> [] -> output_file self <> [] -> patterns self <> [] ->
  files w (input_file self) = Some content ->
  scrub_log self w
  = match try_scrub self w with
    | (Ok _, w') => w'
    | (Raise e, w') => run (logging (handled self e)) w'
    end.
Proof.
  intros Hi Ho Hp Hf. unfold scrub_log.
  destruct (input_file self) as [|ci pi] eqn:Ei; [congruence|].
  destruct (output_file self) as [|co po] eqn:Eo; [congruence|].
  destruct (patterns self) as [|p0 ps] eqn:Ep; [congruence|].
  cbn [falsy orb]. unfold os_path_exists. now rewrite Hf.
Qed.

(** X18.  An encoding that Python does not know stops the run before
    anything is written: no file is created or changed, and the
    [LookupError] of [open] is logged at line 84. *)
Theorem unknown_encoding_changes_no_file self (w : world G) content :
  input_file self <> [] -> output_file self <> [] -> patterns self <> [] ->
  files w (input_file self) = Some content ->
  os_refuses (open_for_reading (input_file self)) = None ->
  codecs_lookup (match encoding_used self content with
                 | Some e => e
                 | None => locale_getencoding
                 end) = None ->
  files (scrub_log self w) = files w
  /\ fake (scrub_log self w) = fake w
  /\ log (scrub_log self w)
     = log w ++ encoding_records self content ++ [ERROR_occurred LookupError].
Proof.
  intros Hi Ho Hp Hf Hr Hc.
  rewrite (scrub_log_tries self w content Hi Ho Hp Hf).
  destruct (determine_encoding_reads self w content Hf Hr)
    as (w1 & R1 & F1 & K1 & L1).
  assert (R : try_scrub self w = (Raise LookupError, w1)).
  { unfold try_scrub. unfold bind at 1. rewrite R1.
    unfold bind at 1, read_lines, read_bytes. unfold bind at 1.
    rewrite Hr, F1, Hf. unfold bind at 1, lift, text_codec. now rewrite Hc. }
  rewrite R. cbn [run snd logging handled files fake log].
  repeat split; [exact F1 | exact K1|]. now rewrite L1, <- app_assoc.
Qed.

(** X19.  An output file that cannot be opened stops the run before
    anything is written: no file is created or changed, and the
    exception is logged by the handlers of lines 81-84.  For a
    [FileNotFoundError], as for an output path in a directory that
    does not exist, the record of line 82 names the input file. *)
Theorem refused_output_changes_no_file self (w : world G) content codec e :
  input_file self <> [] -> output_file self <> [] -> patterns self <> [] ->
  files w (input_file self) = Some content ->
  os_refuses (open_for_reading (input_file self)) = None ->
  codecs_lookup (match encoding_used self content with
                 | Some e => e
                 | None => locale_getencoding
                 end) = Some codec ->
  os_refuses (open_for_writing (output_file self)) = Some e ->
  files (scrub_log self w) = files w
  /\ fake (scrub_log self w) = fake w
  /\ log (scrub_log self w)
     = log w ++ encoding_records self content ++ [handled self e]
  /\ (e = FileNotFoundError ->
      handled self e = ERROR_file_not_found (input_file self)).
Proof.
  intros Hi Ho Hp Hf Hr Hc Hw.
  rewrite (scrub_log_tries self w content Hi Ho Hp Hf).
  destruct (determine_encoding_reads self w content Hf Hr)
    as (w1 & R1 & F1 & K1 & L1).
  assert (R : try_scrub self w = (Raise e, w1)).
  { unfold try_scrub. unfold bind at 1. rewrite R1.
    unfold bind at 1, read_lines, read_bytes. unfold bind at 1.
    rewrite Hr, F1, Hf. unfold bind at 1, lift, text_codec. rewrite Hc.
    unfold ret at 1. unfold bind at 1, open_w. now rewrite Hw. }
  rewrite R. cbn [run snd logging files fake log].
  repeat split; [exact F1 | exact K1 | now rewrite L1, <- app_assoc|].
  now intros ->.
Qed.

(** X20.  An input file that exists but that the operating system does
    not let the program read stops the run before anything is
    written.  When no encoding is given, [_detect_encoding] meets the
    refusal first: it logs it at line 46 and answers [utf-8], which
    line 65 logs as the detected encoding; then [open] meets the same
    refusal, which the handlers of lines 81-84 log. *)
Theorem unreadable_input_changes_no_file self (w : world G) content e :
  input_file self <> [] -> output_file self <> [] -> patterns self <> [] ->
  files w (input_file self) = Some content ->
  os_refuses (open_for_reading (input_file self)) = Some e ->
  files (scrub_log self w) = files w
  /\ fake (scrub_log self w) = fake w
  /\ log (scrub_log self w)
     = log w
       ++ match encoding self with
          | Some (_ :: _) => []
          | _ => [ERROR_detecting_encoding e;
                  INFO_detected_encoding (Some (py "utf-8"))]
          end
       ++ [handled self e].
Proof.
  intros Hi Ho Hp Hf Hr.
  rewrite (scrub_log_tries self w content Hi Ho Hp Hf).
  unfold try_scrub, determine_encoding, _detect_encoding, read_lines,
    read_bytes.
  destruct (encoding self) as [[|c enc]|];
    unfold bind, logging, ret; rewrite ?Hr;
    cbn [run snd logging files fake log];
    rewrite <- ?app_assoc; now repeat split.
Qed.

End Refusals.

(** ** [main] *)

Lemma contains_faker_sys : contains (py "faker") (py "sys") = false.
Proof. reflexivity. Qed.

(** X13.  From the command line the five synthetic keywords never
    reach the scrubber.  The test of line 145 asks that the name of
    every loaded module hold [faker]; [sys], which line 7 imports, does
    not, so [main] logs that the dependency is missing and returns
    without scrubbing. *)
Theorem main_rejects_fake_keywords {E : re.Engine} {G : Type}
    {F : faker.Faker G} {H : Host} args modules (w : world G) r :
  args_replace_with args = Some r -> is_fake_keyword r = true ->
  In (py "sys") modules ->
  main args modules w = Faker_missing.
Proof.
  intros Hr Hk Hs. unfold main. rewrite Hr, Hk.
  assert (K : forallb (contains (py "faker")) modules = false).
  { destruct (forallb (contains (py "faker")) modules) eqn:A; [|reflexivity].
    rewrite forallb_forall in A. specialize (A _ Hs).
    rewrite contains_faker_sys in A. discriminate. }
  now rewrite K.
Qed.

(** ** Witnesses *)

Lemma scrub_line_effects_witness :
  let run := _scrub_line (scrubber [py "a"; py "("] None) (py "abc")
                         counting.world0 in
  files (snd run) = files counting.world0
  /\ fst run <> Raise re_error
  /\ (log (snd run) = log counting.world0
      \/ exists q, In q [py "a"; py "("] /\ fst run = Ok (py "abc")
                   /\ log (snd run)
                      = log counting.world0 ++ [ERROR_invalid_regex q]).
Proof.
  apply (@scrub_line_effects sre_engine nat counting.generator
           (scrubber [py "a"; py "("] None) (py "abc") counting.world0).
  apply surjective_pairing.
Defined.

Lemma fixed_text_composes_rules_witness :
  exists ps,
    compiled [py "\d+"; py "x"] ps
    /\ _scrub_line (scrubber [py "\d+"; py "x"] (Some (py "#")))
                   (py "a1x22") counting.world0
       = (Ok (replace_all ps (py "#") (py "a1x22")), counting.world0)
    /\ replace_all ps (py "#") (py "a1x22") = py "a###".
Proof.
  eexists. split; [repeat constructor; reflexivity|]. split.
  - apply (@fixed_text_composes_rules sre_engine nat counting.generator
             (scrubber [py "\d+"; py "x"] (Some (py "#")))).
    + reflexivity.
    + reflexivity.
    + repeat constructor; reflexivity.
  - reflexivity.
Defined.

Lemma delete_only_removes_witness :
  exists out w',
    _scrub_line (scrubber [email_rule; py "\s+"] None)
                (py "mail ann@corp.example now") counting.world0
    = (Ok out, w')
    /\ subseq out (py "mail ann@corp.example now")
    /\ List.length out <= 25.
Proof.
  apply (@delete_only_removes sre_engine nat counting.generator
           (scrubber [email_rule; py "\s+"] None)).
  - reflexivity.
  - repeat constructor; intros e H; vm_compute in H; congruence.
Defined.

Lemma rules_after_invalid_are_ignored_witness :
  let self := scrubber [] (Some (py "#")) in
  _scrub_line (with_patterns self ([py "a"] ++ py "(" :: [py "b"; py "c"]))
              (py "abc") counting.world0
  = _scrub_line (with_patterns self ([py "a"] ++ py "(" :: []))
                (py "abc") counting.world0.
Proof.
  apply (@rules_after_invalid_are_ignored sre_engine nat counting.generator).
  reflexivity.
Defined.

Lemma failed_scrub_consumes_values_witness :
  exists w',
    _scrub_line (scrubber [py "a"; py "("; py "b"] (Some (py "fake_name")))
                (py "abc") counting.world0
    = (Ok (py "abc"), w')
    /\ fake w' = 2
    /\ log w' = [ERROR_invalid_regex (py "(")].
Proof.
  destruct (@failed_scrub_consumes_values sre_engine nat counting.generator
              (scrubber [py "a"; py "("; py "b"] (Some (py "fake_name")))
              faker.name [py "a"] (py "(") [py "b"] (py "abc")
              counting.world0) as (w' & R & Fk & L).
  - eexists; split; reflexivity.
  - intros g. apply counting_plain.
  - repeat constructor; eexists; reflexivity.
  - reflexivity.
  - reflexivity.
  - exists w'. repeat split; assumption.
Defined.

Lemma scrub_log_writes_a_prefix_witness :
  let self := scrubber [py "o"] (Some (py "\g<x>")) in
  let w := input_log [py "one"; py "two"] in
  let content := example.bytes_of (example.unlines [py "one"; py "two"]) in
  let lines := input_lines example.ascii_codec content in
  (exists outs,
      Forall2 (derives self) lines outs
      /\ files (scrub_log self w) (py "output.log")
         = Some (output_of example.ascii_codec outs))
  \/ (exists e outs,
         e <> re_error
         /\ List.length outs < List.length lines
         /\ Forall2 (derives self) (firstn (List.length outs) lines) outs
         /\ files (scrub_log self w) (py "output.log")
            = Some (output_of example.ascii_codec outs)
         /\ (exists l, log (scrub_log self w) = l ++ [handled self e])
         /\ (py "input.log" <> py "output.log" ->
             files (scrub_log self w) (py "input.log") = Some content)).
Proof.
  apply (@scrub_log_writes_a_prefix sre_engine nat counting.generator
           example.willing (scrubber [py "o"] (Some (py "\g<x>")))
           (input_log [py "one"; py "two"])
           (example.bytes_of (example.unlines [py "one"; py "two"]))
           example.ascii_codec).
  repeat split; discriminate.
Defined.

Lemma scrub_log_touches_two_files_witness :
  let w := set_file (py "other.log") (Some (example.bytes_of (py "kept")))
                    (input_log [py "a1"]) in
  files (scrub_log (scrubber [py "\d"] None) w) (py "other.log")
  = files w (py "other.log").
Proof.
  apply (@scrub_log_touches_two_files sre_engine nat counting.generator
           example.willing (scrubber [py "\d"] None)); discriminate.
Defined.

Lemma input_kept_unless_inplace_witness :
  files (scrub_log (scrubber [py "\d"] None) (input_log [py "a1"; py "b2"]))
        (py "input.log")
  = files (input_log [py "a1"; py "b2"]) (py "input.log").
Proof.
  apply (@input_kept_unless_inplace sre_engine nat counting.generator
           example.willing (scrubber [py "\d"] None));
    [reflexivity | discriminate].
Defined.

Lemma invalid_rule_copies_the_input_witness :
  let self := scrubber [py "\d"; py "("] (Some (py "#")) in
  let content := example.bytes_of (example.unlines [py "a1"; py "b2"]) in
  files (scrub_log self (input_log [py "a1"; py "b2"])) (py "output.log")
  = Some (output_of example.ascii_codec
            (input_lines example.ascii_codec content))
  /\ List.concat (input_lines example.ascii_codec content)
     = io.universal_newlines (codecs.decode example.ascii_codec content).
Proof.
  apply (@invalid_rule_copies_the_input sre_engine nat counting.generator
           example.willing (scrubber [py "\d"; py "("] (Some (py "#")))
           (input_log [py "a1"; py "b2"])
           (example.bytes_of (example.unlines [py "a1"; py "b2"]))
           example.ascii_codec).
  - repeat split; discriminate.
  - intros n gi. now apply plain_only_re_error.
  - repeat constructor; intros e K; vm_compute in K; congruence.
  - exists (py "("). split; [simpl; auto | reflexivity].
Defined.


Lemma fixed_text_run_spares_generator_witness :
  fake (scrub_log (scrubber [email_rule] (Some (py "<email>")))
                  (input_log [py "to ann@corp.example"; py "done"]))
  = 0.
Proof.
  apply (@fixed_text_run_spares_generator sre_engine nat counting.generator
           example.willing (scrubber [email_rule] (Some (py "<email>")))).
  reflexivity.
Defined.

Lemma fixed_text_scrubs_linewise_witness :
  let self := scrubber [py "\d"] (Some (py "#")) in
  let content := example.bytes_of
                   (example.unlines [py "a1"; py "b2"; py "a1"]) in
  exists f : str -> str,
    (forall line (w0 : world nat), fst (_scrub_line self line w0) = Ok (f line))
    /\ files (scrub_log self (input_log [py "a1"; py "b2"; py "a1"]))
             (py "output.log")
       = Some (output_of example.ascii_codec
                 (map f (input_lines example.ascii_codec content))).
Proof.
  apply (@fixed_text_scrubs_linewise sre_engine nat counting.generator
           example.willing (scrubber [py "\d"] (Some (py "#")))
           (input_log [py "a1"; py "b2"; py "a1"])
           (example.bytes_of (example.unlines [py "a1"; py "b2"; py "a1"]))
           example.ascii_codec).
  - repeat split; discriminate.
  - reflexivity.
  - intros n gi. now apply plain_only_re_error.
  - repeat constructor; intros e K; vm_compute in K; congruence.
Defined.

Lemma main_rejects_fake_keywords_witness :
  main {| args_input_file := py "input.log";
          args_output_file := py "output.log";
          args_patterns := [email_rule];
          args_replace_with := Some (py "fake_email");
          args_inplace := false; args_encoding := None |}
       [py "sys"; py "re"; py "faker"; py "faker.providers"]
       (input_log [py "to ann@corp.example"])
  = Faker_missing.
Proof.
  apply (@main_rejects_fake_keywords sre_engine nat counting.generator
           example.willing)
    with (r := py "fake_email"); [reflexivity | reflexivity | simpl; auto].
Defined.

Lemma raising_replacement_empties_output_witness :
  let self := {| input_file := py "app.log"; output_file := py "app.log";
                 patterns := [py "\d"]; replace_with := Some (py "\g<id>");
                 inplace := false; encoding := None |} in
  let w := set_file (py "app.log")
             (Some (example.bytes_of (example.unlines [py "a1"; py "b2"])))
             counting.world0 in
  files (scrub_log self w) (py "app.log") = Some []
  /\ (exists l, log (scrub_log self w) = l ++ [ERROR_occurred IndexError])
  /\ (py "app.log" = py "app.log" ->
      files (scrub_log self w) (py "app.log") = Some []).
Proof.
  apply (@raising_replacement_empties_output sre_engine nat
           counting.generator example.willing
           {| input_file := py "app.log"; output_file := py "app.log";
              patterns := [py "\d"]; replace_with := Some (py "\g<id>");
              inplace := false; encoding := None |}
           (set_file (py "app.log")
              (Some (example.bytes_of (example.unlines [py "a1"; py "b2"])))
              counting.world0)
           (example.bytes_of (example.unlines [py "a1"; py "b2"]))
           example.ascii_codec
           (py "a1" ++ [LF]) [py "b2" ++ [LF]] (py "\d") [] IndexError);
    try reflexivity; try discriminate.
  repeat split; discriminate.
Defined.

Lemma invalid_rule_logs_each_line_witness :
  exists errs,
    log (scrub_log (scrubber [py "\d"; py "("] None)
                   (input_log [py "a1"; py "b2"; py "c3"]))
    = [] ++ [] ++ errs ++ []
    /\ List.length errs = 3
    /\ Forall is_invalid_regex_record errs.
Proof.
  apply (@invalid_rule_logs_each_line sre_engine nat counting.generator
           example.willing (scrubber [py "\d"; py "("] None)
           (input_log [py "a1"; py "b2"; py "c3"])
           (example.bytes_of (example.unlines [py "a1"; py "b2"; py "c3"]))
           example.ascii_codec).
  - repeat split; discriminate.
  - exact I.
  - repeat constructor; intros e K; vm_compute in K; congruence.
  - exists (py "("). split; [simpl; auto | reflexivity].
Defined.

Lemma valid_rules_scrub_every_line_witness :
  files (scrub_log (scrubber [py "\d+"; py "x"] None)
                   (input_log [py "a1x22"; py "xyz"]))
        (py "output.log")
  = Some (example.bytes_of (example.unlines [py "a"; py "yz"]))
  /\ log (scrub_log (scrubber [py "\d+"; py "x"] None)
                    (input_log [py "a1x22"; py "xyz"])) = [].
Proof.
  destruct (re.compile (py "\d+")) as [p1|] eqn:H1; [|discriminate].
  destruct (re.compile (py "x")) as [p2|] eqn:H2; [|discriminate].
  destruct (@valid_rules_scrub_every_line sre_engine nat counting.generator
              example.willing (scrubber [py "\d+"; py "x"] None) [p1; p2]
              (input_log [py "a1x22"; py "xyz"])
              (example.bytes_of (example.unlines [py "a1x22"; py "xyz"]))
              example.ascii_codec) as [A B].
  - repeat split; discriminate.
  - exact I.
  - reflexivity.
  - repeat constructor; assumption.
  - vm_compute in H1, H2. injection H1 as <-. injection H2 as <-.
    split; [exact (eq_trans A eq_refl) | exact (eq_trans B eq_refl)].
Defined.

Lemma synthetic_run_requests_witness :
  fake (scrub_log (scrubber [py "\d"; email_rule] (Some (py "fake_name")))
                  (input_log [py "a1"; py "b2"; py "none"]))
  = 6.
Proof.
  rewrite (@synthetic_run_requests sre_engine nat counting.generator
             example.willing
             (scrubber [py "\d"; email_rule] (Some (py "fake_name")))
             faker.name (input_log [py "a1"; py "b2"; py "none"])
             (example.bytes_of (example.unlines [py "a1"; py "b2"; py "none"]))
             example.ascii_codec).
  - reflexivity.
  - repeat split; discriminate.
  - eexists; split; reflexivity.
  - intros g. apply counting_plain.
  - repeat constructor; eexists; reflexivity.
Defined.

Lemma unknown_encoding_changes_no_file_witness :
  let self := {| input_file := py "input.log"; output_file := py "output.log";
                 patterns := [py "\d"]; replace_with := None;
                 inplace := false; encoding := Some (py "bogus") |} in
  let w := input_log [py "a1"] in
  files (scrub_log self w) = files w
  /\ fake (scrub_log self w) = 0
  /\ log (scrub_log self w) = [] ++ [] ++ [ERROR_occurred LookupError].
Proof.
  apply (@unknown_encoding_changes_no_file sre_engine nat counting.generator
           example.willing
           {| input_file := py "input.log"; output_file := py "output.log";
              patterns := [py "\d"]; replace_with := None;
              inplace := false; encoding := Some (py "bogus") |}
           (input_log [py "a1"])
           (example.bytes_of (example.unlines [py "a1"])));
    try discriminate; reflexivity.
Defined.

Lemma refused_output_changes_no_file_witness :
  let self := {| input_file := py "input.log";
                 output_file := py "nodir/output.log";
                 patterns := [py "\d"]; replace_with := None;
                 inplace := false; encoding := Some (py "ascii") |} in
  let w := input_log [py "a1"] in
  let w' := @scrub_log sre_engine nat counting.generator example.no_directory
                       self w in
  files w' = files w
  /\ fake w' = 0
  /\ log w' = [] ++ [] ++ [ERROR_file_not_found (py "input.log")]
  /\ (FileNotFoundError = FileNotFoundError ->
      ERROR_file_not_found (py "input.log")
      = ERROR_file_not_found (py "input.log")).
Proof.
  apply (@refused_output_changes_no_file sre_engine nat counting.generator
           example.no_directory
           {| input_file := py "input.log";
              output_file := py "nodir/output.log";
              patterns := [py "\d"]; replace_with := None;
              inplace := false; encoding := Some (py "ascii") |}
           (input_log [py "a1"])
           (example.bytes_of (example.unlines [py "a1"]))
           example.ascii_codec FileNotFoundError);
    try discriminate; reflexivity.
Defined.

Lemma unreadable_input_changes_no_file_witness :
  let H := example.host (fun r => match r with
                                  | open_for_reading _ => Some PermissionError
                                  | _ => None
                                  end) in
  let self := {| input_file := py "input.log"; output_file := py "output.log";
                 patterns := [py "\d"]; replace_with := None;
                 inplace := false; encoding := None |} in
  let w := input_log [py "a1"] in
  let w' := @scrub_log sre_engine nat counting.generator H self w in
  files w' = files w
  /\ fake w' = 0
  /\ log w' = [] ++ [ERROR_detecting_encoding PermissionError;
                     INFO_detected_encoding (Some (py "utf-8"))]
              ++ [ERROR_occurred PermissionError].
Proof.
  apply (@unreadable_input_changes_no_file sre_engine nat counting.generator
           (example.host (fun r => match r with
                                   | open_for_reading _ => Some PermissionError
                                   | _ => None
                                   end))
           {| input_file := py "input.log"; output_file := py "output.log";
              patterns := [py "\d"]; replace_with := None;
              inplace := false; encoding := None |}
           (input_log [py "a1"])
           (example.bytes_of (example.unlines [py "a1"])) PermissionError);
    try discriminate; reflexivity.
Defined.
